(** * DEST database import (src/io/database_io.cpp)

    A shallow embedding of the import pipeline of Deformable Shape
    Tracking: the two annotation parsers, the scale and mirror transforms
    and the two dialect importers, followed by the properties of the
    specification that concern them.

    Conventions.
    - [float] values are IEEE-754 binary32, computed with the executable
      operations of [SpecFloat] at precision 24 and exponent bound 128.
    - [int] values are [Z]; indices and sizes are [nat].
    - An Eigen matrix with two rows is the list of its columns.
    - Code that trips an Eigen assertion or reads an object that was never
      written has no defined result: it yields [Fault]. *)

From Stdlib Require Import ZArith Zpower QArith List String Ascii Bool Lia.
From Stdlib Require Import Floats.SpecFloat.
Import ListNotations.

Local Open Scope string_scope.
Local Open Scope Z_scope.

(* ================================================================== *)
(** ** Results of code that may leave defined behaviour, or be left
    by an exception *)

Inductive fault : Type :=
| IndexOutOfRange      (* coefficient access outside the matrix *)
| NegativeSize         (* resize to a negative number of columns *)
| UninitializedRead    (* use of a local that no statement has written *)
| UncaughtException.   (* an exception of a library call; nothing in
                          this file catches one *)

Inductive result (A : Type) : Type :=
| Ok (a : A)
| Fault (f : fault).

Arguments Ok {A} a.
Arguments Fault {A} f.

Definition bind {A B : Type} (c : result A) (k : A -> result B) : result B :=
  match c with
  | Ok a => k a
  | Fault f => Fault f
  end.

Notation "x <- c ;; k" := (bind c (fun x => k))
  (at level 61, c at next level, right associativity).
Notation "' p <- c ;; k" := (bind c (fun x => let 'p := x in k))
  (at level 61, p pattern, c at next level, right associativity).

(** A local declared without initialiser holds [None] until written. *)
Definition use {A : Type} (v : option A) : result A :=
  match v with
  | Some a => Ok a
  | None => Fault UninitializedRead
  end.

(** A library call that may raise: [None] is the exception, which
    leaves every function of this file that made the call. *)
Definition call {A : Type} (v : option A) : result A :=
  match v with
  | Some a => Ok a
  | None => Fault UncaughtException
  end.

(* ================================================================== *)
(** ** Single-precision arithmetic *)

Module F32.

Definition float : Type := spec_float.

Definition prec : Z := 24.
Definition emax : Z := 128.

(** [static_cast<float>(n)] for an integer [n]. *)
Definition of_int (n : Z) : float := binary_normalize prec emax n 0 false.

Definition zero : float := S754_zero false.
Definition one : float := of_int 1.

Definition sub (x y : float) : float := SFsub prec emax x y.
Definition mul (x y : float) : float := SFmul prec emax x y.
Definition div (x y : float) : float := SFdiv prec emax x y.
Definition ltb (x y : float) : bool := SFltb x y.

(** Largest finite value, stored by stream extraction on overflow. *)
Definition max_float : float := SFmax_float prec emax.

(** The float nearest to [(-1)^neg * m * 10^e10], as [strtof] gives it. *)
Definition of_decimal (neg : bool) (m : Z) (e10 : Z) : float :=
  match m with
  | Z0 => S754_zero neg
  | Zneg _ => S754_nan
  | Zpos _ =>
      if 0 <=? e10
      then binary_normalize prec emax
             ((if neg then Z.opp m else m) * 10 ^ e10) 0 false
      else
        let '(q, e, l) :=
          SFdiv_core_binary prec emax m 0 (10 ^ (- e10)) 0 in
        binary_round_aux prec emax neg q e l
  end.

Definition is_infinite (x : float) : bool :=
  match x with
  | S754_infinity _ => true
  | _ => false
  end.

End F32.

Abbreviation float := F32.float.

(* ================================================================== *)
(** ** Characters and text, as the C++ library classifies them *)

Module Text.

Definition newline : ascii := ascii_of_nat 10.

(** [isspace] in the "C" locale: space, \t, \n, \v, \f, \r. *)
Definition isspace (c : ascii) : bool :=
  let n := nat_of_ascii c in
  (Nat.eqb n 32 || (Nat.leb 9 n && Nat.leb n 13))%bool.

Definition isdigit (c : ascii) : bool :=
  let n := nat_of_ascii c in
  (Nat.leb 48 n && Nat.leb n 57)%bool.

Definition digit_value (c : ascii) : Z := Z.of_nat (nat_of_ascii c) - 48.

Fixpoint skip_ws (s : string) : string :=
  match s with
  | String c rest => if isspace c then skip_ws rest else s
  | EmptyString => s
  end.

(** Longest prefix of characters satisfying [p], and what follows it. *)
Fixpoint span (p : ascii -> bool) (s : string) : string * string :=
  match s with
  | String c rest =>
      if p c
      then let '(tok, tl) := span p rest in (String c tok, tl)
      else (EmptyString, s)
  | EmptyString => (EmptyString, EmptyString)
  end.

(** Value of a run of decimal digits, most significant first. *)
Fixpoint digits_value (acc : Z) (s : string) : Z :=
  match s with
  | String c rest => digits_value (10 * acc + digit_value c) rest
  | EmptyString => acc
  end.

Definition strlen (s : string) : Z := Z.of_nat (String.length s).

(** An optional sign: [true] for '-', and the text after it. *)
Definition take_sign (s : string) : bool * string :=
  match s with
  | String "-" rest => (true, rest)
  | String "+" rest => (false, rest)
  | _ => (false, s)
  end.

(** [line.find(needle) != std::string::npos] *)
Fixpoint contains (needle s : string) : bool :=
  if String.prefix needle s then true
  else match s with
       | String _ rest => contains needle rest
       | EmptyString => false
       end.

(** [atol]: leading white space, an optional sign, then as many decimal
    digits as there are; 0 when there are none. *)
Definition atol (s : string) : Z :=
  let '(neg, s1) := take_sign (skip_ws s) in
  let '(ds, _) := span isdigit s1 in
  let v := digits_value 0 ds in
  if neg then - v else v.

(** The pieces of a text between its newline characters; never empty. *)
Fixpoint split_lines (s : string) : list string :=
  match s with
  | EmptyString => [EmptyString]
  | String c rest =>
      match split_lines rest with
      | l :: ls =>
          if Ascii.eqb c newline
          then EmptyString :: l :: ls
          else String c l :: ls
      | [] => [String c EmptyString]
      end
  end.

(** Lines joined by newline characters, no newline after the last. *)
Fixpoint unlines (ls : list string) : string :=
  match ls with
  | [] => EmptyString
  | [l] => l
  | l :: rest => l ++ String newline (unlines rest)
  end.

End Text.

(* ================================================================== *)
(** ** Input streams *)

Module Stream.
Import Text.

(** *** [std::ifstream]: the unread text, cut at newlines, and the state
    bits that [std::getline] consults and sets. *)
Record ifstream : Type := mk_ifstream {
  segs : list string;
  eofbit : bool;
  failbit : bool
}.

(** Opening a file: [None] is a file that cannot be opened. *)
Definition open (content : option string) : ifstream :=
  match content with
  | Some text => mk_ifstream (split_lines text) false false
  | None => mk_ifstream [] false true
  end.

(** [std::getline(file, line)]: the stream's truth value, the new value
    of [line] and the new stream. A stream that is not good leaves
    [line] as it was; otherwise [line] is erased and refilled up to the
    next newline or to the end of the text. *)
Definition getline (f : ifstream) (line : string)
  : bool * string * ifstream :=
  if (eofbit f || failbit f)%bool
  then (false, line, mk_ifstream (segs f) (eofbit f) true)
  else
    match segs f with
    | l :: (_ :: _) as rest => (true, l, mk_ifstream rest false false)
    | [l] =>
        match l with
        | EmptyString => (false, EmptyString, mk_ifstream [] true true)
        | _ => (true, l, mk_ifstream [] true false)
        end
    | [] => (false, EmptyString, mk_ifstream [] true true)
    end.

(** *** [std::stringstream] used for extraction only: the unread text
    and the fail bit. An exhausted buffer is the end of the stream. *)
Record sstream : Type := mk_sstream {
  buf : string;
  ss_fail : bool
}.

Definition sstream_of (line : string) : sstream := mk_sstream line false.

(** Every formatted extraction returns [None] when it stores nothing
    (the variable keeps what it held) and [Some v] when it stores [v]. *)

(** [stream >> std::string] *)
Definition extract_string (ss : sstream) : option string * sstream :=
  if ss_fail ss then (None, ss)
  else
    match skip_ws (buf ss) with
    | EmptyString => (None, mk_sstream EmptyString true)
    | b =>
        let '(tok, rest) := span (fun c => negb (isspace c)) b in
        (Some tok, mk_sstream rest false)
    end.

Definition int_max : Z := 2147483647.
Definition int_min : Z := -2147483648.

(** [stream >> int]: an optional sign and decimal digits. Without a
    digit the conversion fails and stores 0; a value out of range is
    stored clamped, with the fail bit set. *)
Definition extract_int (ss : sstream) : option Z * sstream :=
  if ss_fail ss then (None, ss)
  else
    match skip_ws (buf ss) with
    | EmptyString => (None, mk_sstream EmptyString true)
    | b =>
        let '(neg, b1) := take_sign b in
        let '(ds, rest) := span isdigit b1 in
        match ds with
        | EmptyString => (Some 0, mk_sstream rest true)
        | _ =>
            let v := if neg then - digits_value 0 ds else digits_value 0 ds in
            if int_max <? v then (Some int_max, mk_sstream rest true)
            else if v <? int_min then (Some int_min, mk_sstream rest true)
            else (Some v, mk_sstream rest false)
        end
    end.

(** The exponent part of a decimal float: after 'e' or 'E', an optional
    sign and digits. [None] when the text has no exponent part; the
    inner [None] is an exponent part without digits. *)
Definition take_exponent (s : string) : option (option Z) * string :=
  match s with
  | String c rest =>
      if (Ascii.eqb c "e" || Ascii.eqb c "E")%bool then
        let '(eneg, r1) := take_sign rest in
        let '(ds, r2) := span isdigit r1 in
        match ds with
        | EmptyString => (Some None, r2)
        | _ => (Some (Some (if eneg then - digits_value 0 ds
                            else digits_value 0 ds)), r2)
        end
      else (None, s)
  | EmptyString => (None, s)
  end.

(** [stream >> float]: sign, digits with at most one decimal point, and
    an exponent part once a digit has been seen. The field converts
    when it has a mantissa digit and no digitless exponent part; else 0
    is stored and the fail bit set. An overflowing value is stored as
    the largest finite float of its sign, with the fail bit set. *)
Definition extract_float (ss : sstream) : option float * sstream :=
  if ss_fail ss then (None, ss)
  else
    match skip_ws (buf ss) with
    | EmptyString => (None, mk_sstream EmptyString true)
    | b =>
        let '(neg, b1) := take_sign b in
        let '(ip, b2) := span isdigit b1 in
        let '(fp, b3) :=
          match b2 with
          | String "." r => span isdigit r
          | _ => (EmptyString, b2)
          end in
        match (ip ++ fp)%string with
        | EmptyString => (Some F32.zero, mk_sstream b3 true)
        | mant =>
            let '(ex, b4) := take_exponent b3 in
            match ex with
            | Some None => (Some F32.zero, mk_sstream b4 true)
            | _ =>
                let e10 := match ex with
                           | Some (Some e) => e
                           | _ => 0
                           end in
                let v := F32.of_decimal neg (digits_value 0 mant)
                           (e10 - strlen fp) in
                if F32.is_infinite v
                then (Some (if neg then SFopp F32.max_float
                            else F32.max_float), mk_sstream b4 true)
                else (Some v, mk_sstream b4 false)
            end
        end
    end.

(** Assignment through a reference: the stored value, or the old one. *)
Definition store {A : Type} (new old : option A) : option A :=
  match new with
  | Some _ => new
  | None => old
  end.

End Stream.

(* ================================================================== *)
(** ** Eigen matrices with two rows *)

Module Eigen.

(** One column: the coefficients of row 0 (x) and row 1 (y). *)
Definition point : Type := (float * float)%type.

Definition Matrix : Type := list point.

Definition cols (m : Matrix) : nat := List.length m.

(** The row count is part of the type. *)
Definition rows (m : Matrix) : nat := 2.

Section Storage.
(** What a coefficient holds that no statement has written. *)
Variable indet : float.

(** [m.resize(2, n)]: asserts [n >= 0]; keeps the storage when the
    size is unchanged and otherwise allocates unwritten storage. *)
Definition resize (m : Matrix) (n : Z) : result Matrix :=
  if n <? 0 then Fault NegativeSize
  else if Nat.eqb (cols m) (Z.to_nat n) then Ok m
  else Ok (repeat (indet, indet) (Z.to_nat n)).
End Storage.

(** [m.fill(v)] *)
Definition fill (v : float) (m : Matrix) : Matrix :=
  map (fun _ => (v, v)) m.

Fixpoint update (col : nat) (f : point -> point) (m : Matrix)
  : option Matrix :=
  match m, col with
  | [], _ => None
  | p :: tl, O => Some (f p :: tl)
  | p :: tl, S j =>
      match update j f tl with
      | Some tl' => Some (p :: tl')
      | None => None
      end
  end.

Definition checked {A : Type} (o : option A) : result A :=
  match o with
  | Some a => Ok a
  | None => Fault IndexOutOfRange
  end.

(** [m(row, col) = v], with Eigen's index assertion. *)
Definition write (row col : nat) (v : float) (m : Matrix) : result Matrix :=
  match row with
  | O => checked (update col (fun p => (v, snd p)) m)
  | S O => checked (update col (fun p => (fst p, v)) m)
  | _ => Fault IndexOutOfRange
  end.

(** [m(row, col)] as a value, with Eigen's index assertion. *)
Definition read (row col : nat) (m : Matrix) : result float :=
  match row with
  | O => checked (option_map fst (nth_error m col))
  | S O => checked (option_map snd (nth_error m col))
  | _ => Fault IndexOutOfRange
  end.

(** [m *= factor] *)
Definition scale (m : Matrix) (factor : float) : Matrix :=
  map (fun p => (F32.mul (fst p) factor, F32.mul (snd p) factor)) m.

(** [m.row(0) *= factor] and [m.row(1) *= factor] *)
Definition scale_row0 (m : Matrix) (factor : float) : Matrix :=
  map (fun p => (F32.mul (fst p) factor, snd p)) m.
Definition scale_row1 (m : Matrix) (factor : float) : Matrix :=
  map (fun p => (fst p, F32.mul (snd p) factor)) m.

End Eigen.

(** [for (i = start; i < start + n; ++i) body] over a threaded state. *)
Fixpoint for_loop {St : Type} (n : nat) (i : nat)
    (body : nat -> St -> result St) (st : St) : result St :=
  match n with
  | O => Ok st
  | S n' => st' <- body i st ;; for_loop n' (S i) body st'
  end.

(* ================================================================== *)
(** ** The program *)

Module DatabaseIO.
Import Text Stream Eigen.

(** [core::Shape]: two rows, any number of columns; default-constructed
    with no column. *)
Definition Shape : Type := Matrix.
Definition Shape_default : Shape := [].

(** [core::Rect] is a matrix type of its own. *)
Definition Rect : Type := Matrix.

Record Size : Type := mk_Size { width : Z; height : Z }.

Record ImportParameters : Type := mk_ImportParameters {
  maxImageSideLength : Z;
  generateVerticallyMirrored : bool
}.

(** [ImportParameters::ImportParameters()] *)
Definition ImportParameters_default : ImportParameters :=
  mk_ImportParameters Stream.int_max false.

(** [imageNeedsScaling(s, p, factor)]: the returned flag and what
    [factor] holds afterwards. *)
Definition imageNeedsScaling (s : Size) (p : ImportParameters)
    (factor : option float) : bool * option float :=
  let maxLen := Z.max (width s) (height s) in
  if maxImageSideLength p <? maxLen
  then (true, Some (F32.div (F32.of_int (maxImageSideLength p))
                            (F32.of_int maxLen)))
  else (false, factor).

(** *** [parseAsfFile] *)

Record asf_state : Type := mk_asf {
  asf_shape : Shape;
  landmarkCount : nat
}.

(** [float x, y; stream >> x >> y;]: what the two locals hold after
    the extractions, [None] for one that was not written. *)
Definition read_xy (stream : sstream)
  : option float * option float * sstream :=
  let x : option float := None in
  let y : option float := None in
  let '(vx, stream) := extract_float stream in
  let x := store vx x in
  let '(vy, stream) := extract_float stream in
  let y := store vy y in
  (x, y, stream).

(** The head of [parsePtsFile], up to the resize: the three header
    lines are read, whether or not they are there, and [numPoints] is
    extracted after the first word of what [line] holds then. Returns
    [numPoints], [line] and the stream. *)
Definition pts_header (file : ifstream) : option Z * string * ifstream :=
  let line := EmptyString in
  let '(_, line, file) := getline file line in   (* Version *)
  let '(_, line, file) := getline file line in   (* NPoints *)
  let numPoints : option Z := None in
  let str := sstream_of line in
  let '(tok, str) := extract_string str in
  let line := match tok with Some t => t | None => line end in
  let '(vn, str) := extract_int str in
  let numPoints := store vn numPoints in
  let '(_, line, file) := getline file line in   (* { *)
  (numPoints, line, file).

Section Parsers.
Variable indet : float.

(** The branch for a record line: path, type, x, y. *)
Definition asf_record (line : string) (st : asf_state)
  : result asf_state :=
  let stream := sstream_of line in
  let '(_, stream) := extract_string stream in
  let '(_, stream) := extract_string stream in
  let '(x, y, stream) := read_xy stream in
  x <- use x ;;
  s <- write 0 (landmarkCount st) x (asf_shape st) ;;
  y <- use y ;;
  s <- write 1 (landmarkCount st) y s ;;
  Ok (mk_asf s (S (landmarkCount st))).

(** The branch for a short line: the landmark count. A line shorter
    than 10 characters keeps [atol]'s value within [int]. *)
Definition asf_count (line : string) (st : asf_state)
  : result asf_state :=
  let nbPoints := atol line in
  s <- resize indet (asf_shape st) nbPoints ;;
  Ok (mk_asf (fill F32.zero s) (landmarkCount st)).

(** The body of the [while] loop, for one line read. *)
Definition asf_line (line : string) (st : asf_state)
  : result asf_state :=
  match line with
  | String c _ =>
      if negb (Ascii.eqb c "#") then
        if contains ".jpg" line then Ok st
        else if strlen line <? 10 then asf_count line st
        else asf_record line st
      else Ok st
  | EmptyString => Ok st
  end.

(** [while (std::getline(file, line)) body], by recursion on the text
    still unread by a good stream; [asf_while_getline] below states it
    with [getline]. *)
Fixpoint asf_lines (unread : list string) (st : asf_state)
  : result asf_state :=
  match unread with
  | [] => Ok st
  | l :: rest =>
      match rest with
      | [] =>
          match l with
          | EmptyString => Ok st
          | _ => asf_line l st
          end
      | _ :: _ => st' <- asf_line l st ;; asf_lines rest st'
      end
  end.

Definition asf_while (file : ifstream) (st : asf_state)
  : result asf_state :=
  if (eofbit file || failbit file)%bool then Ok st
  else asf_lines (segs file) st.

(** The file is given by its content, [None] when it cannot be
    opened; [s] is the caller's shape. Returns the flag and [s]. *)
Definition parseAsfFile (content : option string) (s : Shape)
  : result (bool * Shape) :=
  let file := Stream.open content in
  st <- asf_while file (mk_asf s 0) ;;
  let s := asf_shape st in
  Ok ((Nat.ltb 0 (rows s) && Nat.ltb 0 (cols s))%bool, s).

(** *** [parsePtsFile] *)

(** The [for] loop that reads the points: [n] iterations are left,
    the next one has index [i]. [inl] is the early [return false]. *)
Fixpoint pts_points (n i : nat) (file : ifstream) (line : string)
    (s : Shape) : result (Shape + Shape) :=
  match n with
  | O => Ok (inr s)
  | S n' =>
      let '(got, line, file) := getline file line in
      if negb got then Ok (inl s)
      else
        let str := sstream_of line in
        let '(x, y, str) := read_xy str in
        x <- use x ;;
        s <- write 0 i (F32.sub x F32.one) s ;;
        y <- use y ;;
        s <- write 1 i (F32.sub y F32.one) s ;;
        pts_points n' (S i) file line s
  end.

Definition parsePtsFile (content : option string) (s : Shape)
  : result (bool * Shape) :=
  let file := Stream.open content in
  let '(numPoints, line, file) := pts_header file in
  numPoints <- use numPoints ;;
  s <- resize indet s numPoints ;;
  let s := fill F32.zero s in
  r <- pts_points (Z.to_nat numPoints) 0 file line s ;;
  match r with
  | inl s => Ok (false, s)
  | inr s => Ok (true, s)
  end.

End Parsers.

(** *** The collaborators: OpenCV, the file system and the parts of
    DEST declared outside this file. *)
Class Collaborators : Type := {
  (** [cv::Mat] and what the code asks of it *)
  Mat : Type;
  mat_cols : Mat -> Z;
  mat_rows : Mat -> Z;
  mat_empty : Mat -> bool;
  (** [cv::resize(img, img, cv::Size(0,0), fx, fy, CV_INTER_CUBIC)]:
      the resized image, or [None] when the call raises
      [cv::Exception] *)
  cv_resize : Mat -> float -> float -> option Mat;
  (** [cv::flip(img, dst, 1)] *)
  cv_flip : Mat -> Mat;
  (** [cv::imread(fileName, cv::IMREAD_GRAYSCALE)] *)
  imread : string -> Mat;
  (** [core::Image] and [util::toDest] *)
  Image : Type;
  toDest : Mat -> Image;
  (** [util::findFilesInDir(directory, extension, recursive)] *)
  findFilesInDir : string -> string -> bool -> list string;
  (** The text of a file, [None] when it cannot be opened *)
  file_content : string -> option string;
  (** [io::importRectangles]: the rectangles it appends *)
  importRectangles : string -> list Rect;
  (** [core::shapeBounds] *)
  shapeBounds : Shape -> Rect
}.

(** The caller's three collections. *)
Record Collections (I : Type) : Type := mk_Outputs {
  images : list I;
  shapes : list Shape;
  rects : list Rect
}.

Arguments mk_Outputs {I} _ _ _.
Arguments images {I} _.
Arguments shapes {I} _.
Arguments rects {I} _.

Definition Outputs `{Collaborators} : Type := Collections Image.

(** [size_t] arithmetic wraps at 64 bits. *)
Definition size_t_sub (a b : nat) : Z :=
  (Z.of_nat a - Z.of_nat b) mod 2 ^ 64.

Section Entry.
Context `{C : Collaborators}.

(** Modelled from the spec: the declaration of [core::Rect] is not
    in this file. The spec gives a Rect as a 2xM matrix with M small
    and fixed; [RectCols] is that M, so a default-constructed Rect
    has [RectCols] unwritten columns. *)
Variable RectCols : nat.

Variable indet : float.

Definition Rect_default : Rect := repeat (indet, indet) RectCols.

Definition mat_size (m : Mat) : Size := mk_Size (mat_cols m) (mat_rows m).

(** The image is resized first: when [cv::resize] raises, the shape
    and the rectangle have not been scaled. *)
Definition scaleImageShapeAndRect (img : Mat) (s : Shape) (r : Rect)
    (factor : float) : result (Mat * Shape * Rect) :=
  img <- call (cv_resize img factor factor) ;;
  let s := scale s factor in
  let r := scale r factor in
  Ok (img, s, r).

(** One iteration of either loop of the mirror transform. *)
Definition mirror_column (img : Mat) (src : Matrix) (i : nat)
    (dst : Matrix) : result Matrix :=
  x <- read 0 i src ;;
  dst <- write 0 i (F32.sub (F32.of_int (mat_cols img - 1)) x) dst ;;
  y <- read 1 i src ;;
  write 1 i y dst.

(** [dstImage] is only written; [dstShape] and [dstRect] are the
    caller's objects. *)
Definition mirrorImageShapeAndRectVertically (img : Mat) (s : Shape)
    (r : Rect) (dstShape : Shape) (dstRect : Rect)
  : result (Mat * Shape * Rect) :=
  let dstImage := cv_flip img in
  dstShape <- resize indet dstShape (Z.of_nat (cols s)) ;;
  dstShape <- for_loop (cols s) 0 (mirror_column img s) dstShape ;;
  dstRect <- for_loop (cols r) 0 (mirror_column img r) dstRect ;;
  Ok (dstImage, dstShape, dstRect).

Definition push_back {A : Type} (v : list A) (a : A) : list A := v ++ [a].

Variable opts : ImportParameters.
Variable loadedRects : list Rect.

(** [loadedRects.empty() ? core::shapeBounds(s) : loadedRects[i]] *)
Definition pick_rect (s : Shape) (i : nat) : result Rect :=
  match loadedRects with
  | [] => Ok (shapeBounds s)
  | _ => checked (nth_error loadedRects i)
  end.

(** [if (imageNeedsScaling(cvImg.size(), opts, f)) scale...(cvImg, s, r, f)] *)
Definition scale_if_needed (cvImg : Mat) (s : Shape) (r : Rect)
  : result (Mat * Shape * Rect) :=
  let f : option float := None in
  let '(needs, f) := imageNeedsScaling (mat_size cvImg) opts f in
  if needs
  then f <- use f ;; scaleImageShapeAndRect cvImg s r f
  else Ok (cvImg, s, r).

(** *** [importIMMFaceDatabase]: the loop body for [paths[i]] *)
Definition imm_entry (path : string) (i : nat) (out : Outputs)
  : result Outputs :=
  let fileNameImg := (path ++ ".jpg")%string in
  let fileNamePts := (path ++ ".asf")%string in
  let s := Shape_default in
  '(asfOk, s) <- parseAsfFile indet (file_content fileNamePts) s ;;
  let cvImg := imread fileNameImg in
  if (asfOk && negb (mat_empty cvImg))%bool then
    let s := scale_row0 s (F32.of_int (mat_cols cvImg)) in
    let s := scale_row1 s (F32.of_int (mat_rows cvImg)) in
    r <- pick_rect s i ;;
    '(cvImg, s, r) <- scale_if_needed cvImg s r ;;
    let img := toDest cvImg in
    let out := mk_Outputs (push_back (images out) img)
                 (shapes out) (rects out) in
    let out := mk_Outputs (images out)
                 (push_back (shapes out) s) (rects out) in
    let out := mk_Outputs (images out)
                 (shapes out) (push_back (rects out) r) in
    if generateVerticallyMirrored opts then
      '(cvFlipped, shapeFlipped, rectFlipped) <-
        mirrorImageShapeAndRectVertically cvImg s r
          Shape_default Rect_default ;;
      let imgFlipped := toDest cvFlipped in
      let out := mk_Outputs (push_back (images out) imgFlipped)
                   (shapes out) (rects out) in
      let out := mk_Outputs (images out)
                   (push_back (shapes out) shapeFlipped) (rects out) in
      let out := mk_Outputs (images out)
                   (shapes out) (push_back (rects out) rectFlipped) in
      Ok out
    else Ok out
  else Ok out.

(** *** [importIBugAnnotatedFaceDatabase]: the loop body for [paths[i]] *)
Definition ibug_entry (path : string) (i : nat) (out : Outputs)
  : result Outputs :=
  let fileNameImg := (path ++ ".jpg")%string in
  let fileNamePts := (path ++ ".pts")%string in
  let s := Shape_default in
  '(ptsOk, s) <- parsePtsFile indet (file_content fileNamePts) s ;;
  let cvImg := imread fileNameImg in
  if (ptsOk && negb (mat_empty cvImg))%bool then
    r <- pick_rect s i ;;
    '(cvImg, s, r) <- scale_if_needed cvImg s r ;;
    let img := toDest cvImg in
    let out := mk_Outputs (push_back (images out) img)
                 (shapes out) (rects out) in
    let out := mk_Outputs (images out)
                 (push_back (shapes out) s) (rects out) in
    let out := mk_Outputs (images out)
                 (shapes out) (push_back (rects out) r) in
    if generateVerticallyMirrored opts then
      '(cvFlipped, shapeFlipped, rectFlipped) <-
        mirrorImageShapeAndRectVertically cvImg s r
          Shape_default Rect_default ;;
      let imgFlipped := toDest cvFlipped in
      let out := mk_Outputs (push_back (images out) imgFlipped)
                   (shapes out) (rects out) in
      let out := mk_Outputs (images out)
                   (push_back (shapes out) shapeFlipped) (rects out) in
      (* shapes.push_back(rectFlipped): a Rect converts to a Shape *)
      let out := mk_Outputs (images out)
                   (push_back (shapes out) rectFlipped) (rects out) in
      Ok out
    else Ok out
  else Ok out.

(** [for (size_t i = start; i < paths.size(); ++i) entry(paths[i], i)],
    by recursion on the paths from index [i] on. *)
Fixpoint import_loop
    (entry : string -> nat -> Outputs -> result Outputs)
    (paths : list string) (i : nat) (out : Outputs) : result Outputs :=
  match paths with
  | [] => Ok out
  | path :: rest =>
      out' <- entry path i out ;;
      import_loop entry rest (S i) out'
  end.

End Entry.

Section Importers.
Context `{C : Collaborators}.
Variable RectCols : nat.
Variable indet : float.

(** The check both importers make on the rectangles they loaded:
    [false] is the early [return false]. *)
Definition rects_match (paths : list string) (loadedRects : list Rect)
  : bool :=
  match loadedRects with
  | [] => true
  | _ => Nat.eqb (List.length paths) (List.length loadedRects)
  end.

Definition importIMMFaceDatabase (directory rectangleFile : string)
    (out : Outputs) (opts : ImportParameters)
  : result (bool * Outputs) :=
  let paths := findFilesInDir directory "asf" true in
  let loadedRects := importRectangles rectangleFile in
  if negb (rects_match paths loadedRects) then Ok (false, out)
  else
    let initialSize := List.length (images out) in
    out <- import_loop (imm_entry RectCols indet opts loadedRects)
             paths 0 out ;;
    Ok (Nat.ltb 0 (List.length (shapes out)), out).

Definition importIBugAnnotatedFaceDatabase
    (directory rectangleFile : string)
    (out : Outputs) (opts : ImportParameters)
  : result (bool * Outputs) :=
  let paths := findFilesInDir directory "pts" true in
  let loadedRects := importRectangles rectangleFile in
  if negb (rects_match paths loadedRects) then Ok (false, out)
  else
    let initialSize := List.length (images out) in
    out <- import_loop (ibug_entry RectCols indet opts loadedRects)
             paths 0 out ;;
    Ok (0 <? size_t_sub (List.length (shapes out)) initialSize, out).

Definition importDatabase (directory rectangleFile : string)
    (out : Outputs) (opts : ImportParameters)
  : result (bool * Outputs) :=
  let isIMM :=
    Nat.ltb 0 (List.length (findFilesInDir directory "asf" true)) in
  let isIBUG :=
    Nat.ltb 0 (List.length (findFilesInDir directory "pts" true)) in
  if isIMM
  then importIMMFaceDatabase directory rectangleFile out opts
  else if isIBUG
  then importIBugAnnotatedFaceDatabase directory rectangleFile out opts
  else Ok (false, out).

End Importers.

End DatabaseIO.

(* ================================================================== *)
(** ** A concrete set of collaborators, for running the importers *)

Module World.
Import Eigen DatabaseIO.

(** A raster reduced to what the importers look at: its size, and
    whether it has been flipped. *)
Record Raster : Type := mk_Raster {
  r_cols : Z;
  r_rows : Z;
  r_flipped : bool
}.

Definition empty_raster : Raster := mk_Raster 0 0 false.

(** The integer nearest to a finite float (halves upwards), 0 else. *)
Definition round_float (x : float) : Z :=
  match x with
  | S754_finite sg m e =>
      let v := if 0 <=? e then Zpos m * 2 ^ e
               else (Zpos m + 2 ^ (- e - 1)) / 2 ^ (- e) in
      if sg then - v else v
  | _ => 0
  end.

(** [cv::resize] with an empty target size, by its documented
    contract: the target sides are the source sides times the factors,
    rounded; the call raises unless both factors are positive and both
    target sides are. *)
Definition resize_raster (m : Raster) (fx fy : float) : option Raster :=
  let c := round_float (F32.mul (F32.of_int (r_cols m)) fx) in
  let r := round_float (F32.mul (F32.of_int (r_rows m)) fy) in
  if (F32.ltb F32.zero fx && F32.ltb F32.zero fy && (0 <? c) && (0 <? r))%bool
  then Some (mk_Raster c r (r_flipped m))
  else None.

Definition flip_raster (m : Raster) : Raster :=
  mk_Raster (r_cols m) (r_rows m) (negb (r_flipped m)).

Definition fmin (a b : float) : float := if F32.ltb b a then b else a.
Definition fmax (a b : float) : float := if F32.ltb a b then b else a.

(** Modelled from the spec: [core::shapeBounds] is declared outside
    this file. The spec gives it as the tight axis-aligned bound over
    the shape's coordinates; the corners are listed top-left,
    top-right, bottom-left, bottom-right. *)
Definition tight_bounds (s : Shape) : Rect :=
  match s with
  | [] => repeat (S754_nan, S754_nan) 4
  | p :: tl =>
      let minx := fold_left fmin (map fst tl) (fst p) in
      let maxx := fold_left fmax (map fst tl) (fst p) in
      let miny := fold_left fmin (map snd tl) (snd p) in
      let maxy := fold_left fmax (map snd tl) (snd p) in
      [(minx, miny); (maxx, miny); (minx, maxy); (maxx, maxy)]
  end.

Fixpoint lookup {A : Type} (key : string) (table : list (string * A))
  : option A :=
  match table with
  | [] => None
  | (k, v) :: rest => if String.eqb k key then Some v else lookup key rest
  end.

(** A directory given by the base names found for each extension, the
    text files and rasters by name, and the rectangles on file. *)
Record Disk : Type := mk_Disk {
  asf_names : list string;
  pts_names : list string;
  texts : list (string * string);
  rasters : list (string * Raster);
  rectangles : list Rect
}.

Definition collaborators (d : Disk) : Collaborators := {|
  Mat := Raster;
  mat_cols := r_cols;
  mat_rows := r_rows;
  mat_empty := fun m => ((r_cols m =? 0) || (r_rows m =? 0))%bool;
  cv_resize := resize_raster;
  cv_flip := flip_raster;
  imread := fun name => match lookup name (rasters d) with
                        | Some m => m
                        | None => empty_raster
                        end;
  Image := Raster;
  toDest := fun m => m;
  findFilesInDir := fun _ ext _ =>
    if String.eqb ext "asf" then asf_names d
    else if String.eqb ext "pts" then pts_names d
    else [];
  file_content := fun name => lookup name (texts d);
  importRectangles := fun _ => rectangles d;
  shapeBounds := tight_bounds
|}.

(** The annotation text of the specification's dialect-B example. *)
Definition pts_example : string :=
  Text.unlines ["1.000000"; "n_points: 3"; "{"; "2 2"; "4 2"; "3 4"; "}"].

(** A dialect-A annotation: two landmarks at fractions of the image. *)
Definition asf_example : string :=
  Text.unlines ["# two landmarks"; "2";
                "0 0 0.25000000 0.50000000 0 1 1";
                "0 0 0.75000000 0.50000000 1 0 0";
                "face.jpg"].

(** One dialect-B entry [a], no rectangle file. *)
Definition ibug_disk : Disk :=
  mk_Disk [] ["a"] [("a.pts", pts_example)]
          [("a.jpg", mk_Raster 8 6 false)] [].

(** One dialect-A entry [a], no rectangle file. *)
Definition imm_disk : Disk :=
  mk_Disk ["a"] [] [("a.asf", asf_example)]
          [("a.jpg", mk_Raster 8 6 false)] [].

(** A directory whose only dialect-A candidate has no readable
    annotation and no image. *)
Definition barren_disk : Disk := mk_Disk ["a"] [] [] [] [].

Definition unit_rect : Rect :=
  [(F32.zero, F32.zero); (F32.one, F32.zero);
   (F32.zero, F32.one); (F32.one, F32.one)].

(** Five annotation files of each dialect and three rectangles on
    file. *)
Definition mismatch_disk : Disk :=
  mk_Disk ["a"; "b"; "c"; "d"; "e"] ["a"; "b"; "c"; "d"; "e"]
          [("a.pts", pts_example); ("a.asf", asf_example)]
          [("a.jpg", mk_Raster 8 6 false)]
          [unit_rect; unit_rect; unit_rect].

(** Collections that hold one entry from an earlier call. *)
Definition one_entry (d : Disk) : @Outputs (collaborators d) :=
  mk_Outputs (I := Raster)
    [mk_Raster 8 6 false] [[(F32.one, F32.one)]] [unit_rect].

Definition no_outputs (d : Disk) : @Outputs (collaborators d) :=
  mk_Outputs (I := Raster) [] [] [].

End World.

(* ================================================================== *)
(** ** Vocabulary of the specification *)

Module Spec.
Import Eigen DatabaseIO.

(** The coordinate map of the mirror transform for an image of width
    [W]: x becomes [float(W - 1) - x] in single precision, y stays. *)
Definition mirror_point (W : Z) (p : point) : point :=
  (F32.sub (F32.of_int (W - 1)) (fst p), snd p).


(** Subtracting 1.f from both coordinates. *)
Definition minus_one (p : point) : point :=
  (F32.sub (fst p) F32.one, F32.sub (snd p) F32.one).

(** The lines that successive [getline] calls will still deliver:
    none from a stream that is not good, and otherwise the unread
    pieces, without the empty piece after a final newline. *)
Fixpoint deliverable (unread : list string) : list string :=
  match unread with
  | [] => []
  | l :: rest =>
      match rest with
      | [] => match l with
              | EmptyString => []
              | _ => [l]
              end
      | _ :: _ => l :: deliverable rest
      end
  end.

Definition pending (f : Stream.ifstream) : list string :=
  if (Stream.eofbit f || Stream.failbit f)%bool then []
  else deliverable (Stream.segs f).

(** The two numbers that [float x, y; str >> x >> y;] reads on a line,
    when both are stored. *)
Definition point_of_line (line : string) : option point :=
  match read_xy (Stream.sstream_of line) with
  | (Some x, Some y, _) => Some (x, y)
  | _ => None
  end.

(** The number that [str >> line >> numPoints] stores when [str] is
    made from [line]: what follows the line's first word. *)
Definition declared_count (line : string) : option Z :=
  let '(_, str) := Stream.extract_string (Stream.sstream_of line) in
  fst (Stream.extract_int str).

(** The three collections have one length. *)
Definition aligned `{Collaborators} (out : Outputs) : Prop :=
  List.length (images out) = List.length (shapes out) /\
  List.length (shapes out) = List.length (rects out).

(** The lengths of the three collections. *)
Definition lengths `{Collaborators} (out : Outputs) : nat * nat * nat :=
  (List.length (images out), List.length (shapes out),
   List.length (rects out)).

(** [out'] has [di] images, [ds] shapes and [dr] rectangles more
    than [out]. *)
Definition grown `{Collaborators} (out out' : Outputs) (di ds dr : nat)
  : Prop :=
  lengths out' =
  (List.length (images out) + di, List.length (shapes out) + ds,
   List.length (rects out) + dr)%nat.

End Spec.

(** Sample data for the closed statements below. *)
Module Samples.
Import Eigen DatabaseIO World.

Definition nan : float := S754_nan.

(** 0.1f, the float nearest to one tenth. *)
Definition tenth : float := F32.of_decimal false 1 (-1).

Definition wide_raster : Raster := mk_Raster 101 1 false.

Definition three_points : Shape :=
  [(F32.of_int 1, F32.of_int 1); (F32.of_int 3, F32.of_int 1);
   (F32.of_int 2, F32.of_int 3)].

Definition small_raster : Raster := mk_Raster 8 6 false.

(** A dialect-A text that declares two landmarks and gives one. *)
Definition asf_one_of_two : string :=
  Text.unlines ["2"; "0 0 0.25000000 0.50000000 0 1 1"].


(** A dialect-B text that declares three points and gives two. *)
Definition pts_two_of_three : string :=
  Text.unlines ["1.000000"; "n_points: 3"; "{"; "2 2"; "4 2"].

(** A dialect-B text that declares no point. *)
Definition pts_none : string :=
  Text.unlines ["1.000000"; "n_points: 0"; "{"; "}"].

Definition quarter : float := F32.of_decimal false 25 (-2).
Definition half : float := F32.of_decimal false 5 (-1).

(** Mirror, then mirror the result again, keeping the final shape. *)
Definition mirror_twice (img : Raster) (s : Shape) (r : Rect)
  : result Shape :=
  '(img1, s1, r1) <-
    mirrorImageShapeAndRectVertically (C := collaborators ibug_disk)
      nan img s r Shape_default (Rect_default 4 nan) ;;
  '(_, s2, _) <-
    mirrorImageShapeAndRectVertically (C := collaborators ibug_disk)
      nan img1 s1 r1 Shape_default (Rect_default 4 nan) ;;
  Ok s2.

End Samples.

(* ================================================================== *)
(** ** Notions used to reason on single-precision arithmetic *)

Module F32Aux.

(** The number of binary digits of a positive integer. *)
Definition digits (p : positive) : Z := Zpos (digits2_pos p).

(** The float of a positive integer below 2^24: its 24-digit mantissa. *)
Definition canonical (n : positive) : float :=
  S754_finite false (Z.to_pos (Zpos n * 2 ^ (24 - digits n))) (digits n - 24).

(** The last step of [binary_round_aux], on the rounded mantissa. *)
Definition finish (sx : bool) (m1 e : Z) : float :=
  let '(mrs, e') := shr_fexp 24 128 m1 e loc_Exact in
  match shr_m mrs with
  | Z0 => S754_zero sx
  | Zpos m => if e' <=? 128 - 24 then S754_finite sx m e' else S754_infinity sx
  | Zneg _ => S754_nan
  end.

(** The sign bit of a float, [None] for a NaN. *)
Definition sign_bit (x : float) : option bool :=
  match x with
  | S754_zero s | S754_infinity s | S754_finite s _ _ => Some s
  | S754_nan => None
  end.

End F32Aux.

(* ================================================================== *)
(** ** Notions used for the further properties *)

Module More.
Import Text Stream Eigen DatabaseIO Spec.

(** The lines that the loop of [parseAsfFile] passes over: empty ones,
    those starting with '#', and those containing ".jpg". *)
Definition asf_skipped (line : string) : bool :=
  match line with
  | EmptyString => true
  | String c _ => (Ascii.eqb c "#" || contains ".jpg" line)%bool
  end.

(** A line taken as the landmark count, and a line taken as a record. *)
Definition asf_is_count (line : string) : bool :=
  (negb (asf_skipped line) && (strlen line <? 10))%bool.
Definition asf_is_record (line : string) : bool :=
  (negb (asf_skipped line) && negb (strlen line <? 10))%bool.

(** The loop body of [parseAsfFile] run on given lines, in order. *)
Fixpoint asf_run (indet : float) (lines : list string) (st : asf_state)
  : result asf_state :=
  match lines with
  | [] => Ok st
  | l :: rest => st' <- asf_line indet l st ;; asf_run indet rest st'
  end.

(** The x and y that a record line yields, after its path and type
    words, when both are stored. *)
Definition asf_point_of_line (line : string) : option point :=
  let stream := sstream_of line in
  let '(_, stream) := extract_string stream in
  let '(_, stream) := extract_string stream in
  match read_xy stream with
  | (Some x, Some y, _) => Some (x, y)
  | _ => None
  end.

(** [out'] holds what [out] held, followed by the given appended items. *)
Definition appended {I : Type} (out out' : Collections I)
    (ims : list I) (ss : list Shape) (rs : list Rect) : Prop :=
  images out' = (images out ++ ims)%list /\
  shapes out' = (shapes out ++ ss)%list /\
  rects out' = (rects out ++ rs)%list.

Section Candidates.
Context `{C : Collaborators}.
Variable indet : float.
Variable opts : ImportParameters.
Variable loadedRects : list Rect.

(** What the loop body of [importIMMFaceDatabase] makes of [paths[i]]
    before it stores anything: [None] when the candidate is passed over,
    else the image, shape and rectangle after the scale policy. *)
Definition imm_candidate (path : string) (i : nat)
  : result (option (Mat * Shape * Rect)) :=
  '(asfOk, s) <- parseAsfFile indet (file_content (path ++ ".asf")%string)
                   Shape_default ;;
  let cvImg := imread (path ++ ".jpg")%string in
  if (asfOk && negb (mat_empty cvImg))%bool then
    let s := scale_row0 s (F32.of_int (mat_cols cvImg)) in
    let s := scale_row1 s (F32.of_int (mat_rows cvImg)) in
    r <- pick_rect loadedRects s i ;;
    e <- scale_if_needed opts cvImg s r ;;
    Ok (Some e)
  else Ok None.

(** The same for the loop body of [importIBugAnnotatedFaceDatabase]. *)
Definition ibug_candidate (path : string) (i : nat)
  : result (option (Mat * Shape * Rect)) :=
  '(ptsOk, s) <- parsePtsFile indet (file_content (path ++ ".pts")%string)
                   Shape_default ;;
  let cvImg := imread (path ++ ".jpg")%string in
  if (ptsOk && negb (mat_empty cvImg))%bool then
    r <- pick_rect loadedRects s i ;;
    e <- scale_if_needed opts cvImg s r ;;
    Ok (Some e)
  else Ok None.

End Candidates.

Section Stored.
Context `{C : Collaborators}.
Variable RectCols : nat.
Variable indet : float.
Variable opts : ImportParameters.
Variable loadedRects : list Rect.

(** What the loop body stores for a candidate, in either dialect;
    [ibug] tells where the mirrored rectangle goes. *)
Definition stored (ibug : bool) (out : Outputs) (img : Mat) (s : Shape)
    (r : Rect) : Outputs :=
  if generateVerticallyMirrored opts then
    let W := mat_cols img in
    let rF := (map (mirror_point W) r
               ++ skipn (cols r) (Rect_default RectCols indet))%list in
    mk_Outputs (images out ++ [toDest img; toDest (cv_flip img)])%list
      (shapes out ++ [s; map (mirror_point W) s]
         ++ if ibug then [rF] else [])%list
      (rects out ++ [r] ++ if ibug then [] else [rF])%list
  else mk_Outputs (images out ++ [toDest img])%list
                  (shapes out ++ [s])%list (rects out ++ [r])%list.

(** The rectangles the importers meet have at most [RectCols] columns. *)
Definition rects_fit : Prop :=
  (forall s, (cols (shapeBounds s) <= RectCols)%nat) /\
  Forall (fun r => (cols r <= RectCols)%nat) loadedRects.

(** Index [i] has a rectangle on file when any was loaded. *)
Definition on_file (i : nat) : Prop :=
  loadedRects = [] \/ (i < List.length loadedRects)%nat.

(** [cv::resize] returns for [img] if the scale policy calls it. *)
Definition resize_returns (img : Mat) : Prop :=
  let maxLen := Z.max (mat_cols img) (mat_rows img) in
  let f := F32.div (F32.of_int (maxImageSideLength opts))
                   (F32.of_int maxLen) in
  maxImageSideLength opts < maxLen ->
  exists img', cv_resize img f f = Some img'.

End Stored.

(** The number of entries per imported candidate. *)
Definition per_candidate (opts : ImportParameters) : nat :=
  if generateVerticallyMirrored opts then 2%nat else 1%nat.

(** The dialect-A example without its comment and image-name lines. *)
Definition asf_bare : string :=
  Text.unlines ["2";
                "0 0 0.25000000 0.50000000 0 1 1";
                "0 0 0.75000000 0.50000000 1 0 0"].

(** A dialect-A text that declares two landmarks and gives three. *)
Definition asf_three_for_two : string :=
  Text.unlines ["2";
                "0 0 0.25000000 0.50000000 0 1 1";
                "0 0 0.75000000 0.50000000 1 0 0";
                "0 0 0.50000000 0.50000000 2 0 0"].

(** A dialect-B text that declares three points, gives two and closes. *)
Definition pts_brace_for_point : string :=
  Text.unlines ["1.000000"; "n_points: 3"; "{"; "2 2"; "4 2"; "}"].

End More.

(* ================================================================== *)
(** * Properties *)

Local Open Scope list_scope.

(** ** Single-precision arithmetic on integers below 2^24 *)

Module F32Facts.
Import F32Aux.


Lemma digits_bounds (p : positive) :
  2 ^ (digits p - 1) <= Zpos p < 2 ^ digits p.
Proof.
  unfold digits.
  induction p as [p IH|p IH|]; cbn [digits2_pos].
  - rewrite Pos2Z.inj_succ.
    replace (Z.succ (Zpos (digits2_pos p)) - 1)
      with (Z.succ (Zpos (digits2_pos p) - 1)) by lia.
    rewrite !Z.pow_succ_r by lia. lia.
  - rewrite Pos2Z.inj_succ.
    replace (Z.succ (Zpos (digits2_pos p)) - 1)
      with (Z.succ (Zpos (digits2_pos p) - 1)) by lia.
    rewrite !Z.pow_succ_r by lia. lia.
  - cbn. lia.
Qed.

Lemma digits_unique (p : positive) (d : Z) :
  2 ^ (d - 1) <= Zpos p < 2 ^ d -> digits p = d.
Proof.
  intros [Hlo Hhi].
  pose proof (digits_bounds p) as [Blo Bhi].
  assert (Hd : 0 < d).
  { destruct (Z.ltb_spec 0 d); [assumption|].
    destruct (Z.eq_dec d 0) as [->|]; [cbn in Hhi; lia|].
    rewrite Z.pow_neg_r in Hhi by lia. lia. }
  assert (Hp : 0 < digits p) by (unfold digits; lia).
  destruct (Z.lt_trichotomy (digits p) d) as [Hlt | [Heq | Hgt]];
    [|assumption|].
  - assert (2 ^ digits p <= 2 ^ (d - 1)) by (apply Z.pow_le_mono_r; lia). lia.
  - assert (2 ^ d <= 2 ^ (digits p - 1)) by (apply Z.pow_le_mono_r; lia). lia.
Qed.

Lemma digits_scaled (p : positive) (k : Z) :
  0 <= k -> digits (Z.to_pos (Zpos p * 2 ^ k)) = digits p + k.
Proof.
  intros Hk. pose proof (digits_bounds p) as [Blo Bhi].
  assert (Hd : 0 < digits p) by (unfold digits; lia).
  assert (Hpow : 0 < 2 ^ k) by (apply Z.pow_pos_nonneg; lia).
  apply digits_unique. rewrite Z2Pos.id by lia.
  replace (digits p + k - 1) with (digits p - 1 + k) by lia.
  rewrite !Z.pow_add_r by lia. nia.
Qed.

Lemma iter_xO_value (p k : positive) :
  Zpos (Pos.iter xO p k) = Zpos p * 2 ^ Zpos k.
Proof.
  change (Pos.iter xO p k) with (shift_pos k p).
  rewrite shift_pos_correct, Z.pow_pos_fold. lia.
Qed.

Lemma iter_pos_nat {A : Type} (f : A -> A) (p : positive) :
  forall x, iter_pos f p x = Nat.iter (Pos.to_nat p) f x.
Proof.
  induction p as [p IH|p IH|]; intros x; cbn [iter_pos].
  - rewrite !IH, Pos2Nat.inj_xI. cbn [Nat.iter Nat.mul].
    rewrite Nat.add_0_r, <- Nat.iter_add, <- Nat.iter_succ_r. reflexivity.
  - rewrite !IH, Pos2Nat.inj_xO. cbn [Nat.mul].
    rewrite Nat.add_0_r, <- Nat.iter_add. reflexivity.
  - reflexivity.
Qed.

Lemma shr_even (n : nat) (m : positive) :
  Nat.iter n shr_1 (Build_shr_record (Zpos (Nat.iter n xO m)) false false) =
  Build_shr_record (Zpos m) false false.
Proof.
  induction n as [|n IH]; [reflexivity|].
  rewrite Nat.iter_succ_r. cbn [Nat.iter shr_1 orb]. exact IH.
Qed.

Lemma shr_exact (s m : positive) :
  iter_pos shr_1 s (Build_shr_record (Zpos (Pos.iter xO m s)) false false) =
  Build_shr_record (Zpos m) false false.
Proof.
  rewrite iter_pos_nat, Pos2Nat.inj_iter. apply shr_even.
Qed.

Lemma fexp_normal (e : Z) : -125 <= e -> fexp 24 128 e = e - 24.
Proof. unfold fexp, emin. lia. Qed.

(** A mantissa of 24 digits is kept as it is. *)
Lemma round_aux_canonical (sx : bool) (m : positive) (e : Z) :
  digits m = 24 -> -149 <= e <= 104 ->
  binary_round_aux 24 128 sx (Zpos m) e loc_Exact = S754_finite sx m e.
Proof.
  intros Hd He. unfold digits in Hd.
  unfold binary_round_aux, shr_fexp. cbn [Zdigits2].
  rewrite Hd, fexp_normal by lia.
  replace (24 + e - 24 - e) with 0 by lia.
  cbn [shr shr_record_of_loc shr_m loc_of_shr_record round_nearest_even
       Zdigits2].
  rewrite Hd, fexp_normal by lia.
  replace (24 + e - 24 - e) with 0 by lia.
  cbn [shr shr_record_of_loc shr_m].
  replace (e <=? 128 - 24) with true by (symmetry; apply Z.leb_le; lia).
  reflexivity.
Qed.

(** Trailing zero bits beyond 24 digits are shifted out exactly. *)
Lemma round_aux_shifted (sx : bool) (m s : positive) (e : Z) :
  digits m = 24 -> -149 <= e + Zpos s <= 104 ->
  binary_round_aux 24 128 sx (Zpos (Pos.iter xO m s)) e loc_Exact =
  S754_finite sx m (e + Zpos s).
Proof.
  intros Hd He.
  assert (HD : Zpos (digits2_pos (Pos.iter xO m s)) = 24 + Zpos s).
  { change (digits (Pos.iter xO m s) = 24 + Zpos s).
    apply digits_unique. rewrite iter_xO_value.
    pose proof (digits_bounds m) as [Blo Bhi]. rewrite Hd in Blo, Bhi.
    replace (24 + Zpos s - 1) with (24 - 1 + Zpos s) by lia.
    rewrite !Z.pow_add_r by lia.
    assert (0 < 2 ^ Zpos s) by (apply Z.pow_pos_nonneg; lia). nia. }
  unfold digits in Hd.
  unfold binary_round_aux, shr_fexp. cbn [Zdigits2].
  rewrite HD, fexp_normal by lia.
  replace (24 + Zpos s + e - 24 - e) with (Zpos s) by lia.
  cbn [shr shr_record_of_loc]. rewrite shr_exact.
  cbn [shr_m loc_of_shr_record round_nearest_even Zdigits2].
  rewrite Hd, fexp_normal by lia.
  replace (24 + (e + Zpos s) - 24 - (e + Zpos s)) with 0 by lia.
  cbn [shr shr_record_of_loc shr_m].
  replace (e + Zpos s <=? 128 - 24) with true by (symmetry; apply Z.leb_le; lia).
  reflexivity.
Qed.


Lemma digits_small (n : positive) : Zpos n < 2 ^ 24 -> 1 <= digits n <= 24.
Proof.
  intros Hn. pose proof (digits_bounds n) as [Blo Bhi].
  assert (0 < digits n) by (unfold digits; lia).
  split; [lia|].
  destruct (Z.le_gt_cases (digits n) 24) as [|Hgt]; [assumption|].
  assert (2 ^ 24 <= 2 ^ (digits n - 1)) by (apply Z.pow_le_mono_r; lia). lia.
Qed.

Lemma normalize_scaled (n : positive) (k : Z) :
  0 <= k -> Zpos n < 2 ^ 24 ->
  binary_normalize 24 128 (Zpos n * 2 ^ k) (- k) false = canonical n.
Proof.
  intros Hk Hn. pose proof (digits_small n Hn) as Hd.
  assert (Hpow : 0 < 2 ^ k) by (apply Z.pow_pos_nonneg; lia).
  assert (HM : 0 < 2 ^ (24 - digits n)) by (apply Z.pow_pos_nonneg; lia).
  set (M := Z.to_pos (Zpos n * 2 ^ (24 - digits n))).
  assert (HMv : Zpos M = Zpos n * 2 ^ (24 - digits n))
    by (unfold M; rewrite Z2Pos.id; lia).
  assert (HMd : digits M = 24).
  { unfold M. rewrite digits_scaled by lia. lia. }
  set (X := Z.to_pos (Zpos n * 2 ^ k)).
  assert (HXv : Zpos n * 2 ^ k = Zpos X) by (unfold X; rewrite Z2Pos.id; lia).
  assert (HXd : Zpos (digits2_pos X) = digits n + k).
  { change (digits X = digits n + k). unfold X. now apply digits_scaled. }
  rewrite HXv. unfold canonical. fold M.
  cbn [binary_normalize]. unfold binary_round.
  rewrite HXd. replace (digits n + k + - k) with (digits n) by lia.
  rewrite fexp_normal by lia. unfold shl_align.
  destruct (digits n - 24 - - k) as [|s|s] eqn:Hs.
  - (* the mantissa has 24 digits already *)
    assert (X = M) as ->.
    { apply Pos2Z.inj. rewrite <- HXv, HMv. f_equal. f_equal. lia. }
    replace (- k) with (digits n - 24) by lia.
    apply round_aux_canonical; [assumption | lia].
  - (* more than 24 digits: the excess bits are zero *)
    assert (X = Pos.iter xO M s) as ->.
    { apply Pos2Z.inj. rewrite iter_xO_value, <- HXv, HMv.
      rewrite <- Z.mul_assoc, <- Z.pow_add_r by lia. do 2 f_equal. lia. }
    replace (digits n - 24) with (- k + Zpos s) by lia.
    apply round_aux_shifted; [assumption | lia].
  - (* fewer than 24 digits: the mantissa is shifted left *)
    assert (Pos.iter xO X s = M) as ->.
    { apply Pos2Z.inj. rewrite iter_xO_value, <- HXv, HMv.
      rewrite <- Z.mul_assoc, <- Z.pow_add_r by lia. do 2 f_equal. lia. }
    apply round_aux_canonical; [assumption | lia].
Qed.

Lemma of_int_canonical (n : positive) :
  Zpos n < 2 ^ 24 -> F32.of_int (Zpos n) = canonical n.
Proof.
  intros Hn. unfold F32.of_int, F32.prec, F32.emax.
  pose proof (normalize_scaled n 0 (Z.le_refl 0) Hn) as H.
  rewrite Z.pow_0_r, Z.mul_1_r in H. exact H.
Qed.


Lemma digits_mono (y a : positive) :
  Zpos y <= Zpos a -> digits y <= digits a.
Proof.
  intros Hle.
  pose proof (digits_bounds y) as [Ylo _].
  pose proof (digits_bounds a) as [_ Ahi].
  destruct (Z.le_gt_cases (digits y) (digits a)) as [|Hgt]; [assumption|].
  assert (0 < digits a) by (unfold digits; lia).
  assert (2 ^ digits a <= 2 ^ (digits y - 1)) by (apply Z.pow_le_mono_r; lia).
  lia.
Qed.

Lemma shl_align_value (m : positive) (e e' : Z) :
  e' <= e -> Zpos (fst (shl_align m e e')) = Zpos m * 2 ^ (e - e').
Proof.
  intros Hle. unfold shl_align.
  destruct (e' - e) as [|d|d] eqn:Hd; cbn [fst].
  - replace (e - e') with 0 by lia. lia.
  - lia.
  - rewrite iter_xO_value. do 2 f_equal. lia.
Qed.

Lemma canonical_value (n : positive) :
  Zpos n < 2 ^ 24 ->
  Zpos (Z.to_pos (Zpos n * 2 ^ (24 - digits n))) =
  Zpos n * 2 ^ (24 - digits n).
Proof.
  intros Hn. pose proof (digits_small n Hn).
  assert (0 < 2 ^ (24 - digits n)) by (apply Z.pow_pos_nonneg; lia).
  rewrite Z2Pos.id; lia.
Qed.

(** The difference of the floats of two integers below 2^24 is the float
    of their difference: the subtraction does not round. *)
Lemma sub_canonical (a y : positive) :
  Zpos y <= Zpos a -> Zpos a < 2 ^ 24 ->
  F32.sub (canonical a) (canonical y) = F32.of_int (Zpos a - Zpos y).
Proof.
  intros Hya Ha.
  assert (Hy : Zpos y < 2 ^ 24) by lia.
  pose proof (digits_mono y a Hya) as Hmono.
  pose proof (digits_small a Ha) as Hda.
  pose proof (digits_small y Hy) as Hdy.
  unfold F32.sub, F32.prec, F32.emax, canonical. cbn [SFsub cond_Zopp].
  rewrite Z.min_r by lia.
  rewrite !shl_align_value by lia.
  rewrite !canonical_value by assumption.
  replace (digits y - 24 - (digits y - 24)) with 0 by lia.
  replace (digits a - 24 - (digits y - 24)) with (digits a - digits y) by lia.
  rewrite Z.pow_0_r, Z.mul_1_r, <- Z.mul_assoc, <- Z.pow_add_r by lia.
  replace (24 - digits a + (digits a - digits y)) with (24 - digits y) by lia.
  rewrite <- Z.mul_sub_distr_r.
  replace (digits y - 24) with (- (24 - digits y)) by lia.
  destruct (Zpos a - Zpos y) as [|n|n] eqn:Hn; [reflexivity| |lia].
  rewrite normalize_scaled by lia.
  symmetry. apply of_int_canonical. lia.
Qed.

Lemma sub_of_int (a y : Z) :
  0 <= y <= a -> a < 2 ^ 24 ->
  F32.sub (F32.of_int a) (F32.of_int y) = F32.of_int (a - y).
Proof.
  intros [Hy Hya] Ha.
  destruct y as [|y|y]; [|..|lia].
  - rewrite Z.sub_0_r. destruct a as [|a|a]; [reflexivity| |lia].
    rewrite of_int_canonical by assumption. reflexivity.
  - destruct a as [|a|a]; try lia.
    rewrite !of_int_canonical by lia.
    now apply sub_canonical.
Qed.

(** Mirroring an integer coordinate of the pixel grid twice gives it
    back. *)
Lemma mirror_twice_integer (W x : Z) :
  0 <= x <= W - 1 -> W - 1 < 2 ^ 24 ->
  F32.sub (F32.of_int (W - 1))
          (F32.sub (F32.of_int (W - 1)) (F32.of_int x)) = F32.of_int x.
Proof.
  intros Hx HW.
  rewrite sub_of_int by lia.
  rewrite sub_of_int by lia.
  f_equal. lia.
Qed.

Lemma round_aux_finish (sx : bool) (mx ex : Z) (lx : location) :
  binary_round_aux 24 128 sx mx ex lx =
  let '(mrs, e) := shr_fexp 24 128 mx ex lx in
  finish sx (round_nearest_even (shr_m mrs) (loc_of_shr_record mrs)) e.
Proof. reflexivity. Qed.

Lemma rne_cases (m : Z) (l : location) :
  round_nearest_even m l = m \/ round_nearest_even m l = m + 1.
Proof.
  destruct l as [|[]]; cbn; auto. destruct (Z.even m); auto.
Qed.

Lemma finish_24 (sx : bool) (p : positive) (e m1 : Z) :
  digits p = 24 -> -149 <= e <= 103 ->
  m1 = Zpos p \/ m1 = Zpos p + 1 ->
  exists mf ef, finish sx m1 e = S754_finite sx mf ef /\
    (ef = e \/ (ef = e + 1 /\ Zpos p = 2 ^ 24 - 1)).
Proof.
  intros Hd He Hm1.
  pose proof (digits_bounds p) as [Blo Bhi]. rewrite Hd in Blo, Bhi.
  destruct (Z.eq_dec m1 (2 ^ 24)) as [Hcarry | Hno].
  - subst m1. exists (2 ^ 23)%positive, (e + 1). split; [|right; split; lia].
    unfold finish, shr_fexp. cbn [Zdigits2 digits2_pos Pos.succ Z.pow Z.pow_pos Pos.iter Z.mul Pos.mul].
    rewrite fexp_normal by lia.
    replace (25 + e - 24 - e) with 1 by lia.
    cbn [shr shr_record_of_loc iter_pos shr_1 shr_m orb].
    replace (e + 1 <=? 128 - 24) with true by (symmetry; apply Z.leb_le; lia).
    reflexivity.
  - assert (Hpos : 0 < m1) by lia.
    destruct m1 as [|q|q]; try lia.
    assert (Hq : digits q = 24).
    { apply digits_unique. lia. }
    exists q, e. split; [|left; reflexivity].
    unfold finish, shr_fexp. cbn [Zdigits2]. unfold digits in Hq.
    rewrite Hq, fexp_normal by lia.
    replace (24 + e - 24 - e) with 0 by lia.
    cbn [shr shr_record_of_loc shr_m].
    replace (e <=? 128 - 24) with true by (symmetry; apply Z.leb_le; lia).
    reflexivity.
Qed.

Lemma loc_of_record (m : Z) (l : location) :
  loc_of_shr_record (shr_record_of_loc m l) = l /\
  shr_m (shr_record_of_loc m l) = m.
Proof. destruct l as [|[]]; split; reflexivity. Qed.

(** Rounding a 24-digit mantissa: the exponent is kept, or grows by one
    when the mantissa is all ones and rounds up. *)
Lemma round_aux_24 (sx : bool) (q : positive) (e : Z) (l : location) :
  digits q = 24 -> -149 <= e <= 103 ->
  exists mf ef, binary_round_aux 24 128 sx (Zpos q) e l = S754_finite sx mf ef /\
    (ef = e \/ (ef = e + 1 /\ Zpos q = 2 ^ 24 - 1)).
Proof.
  intros Hd He. rewrite round_aux_finish.
  unfold shr_fexp. cbn [Zdigits2]. pose proof Hd as Hd'. unfold digits in Hd'.
  rewrite Hd', fexp_normal by lia.
  replace (24 + e - 24 - e) with 0 by lia. cbn [shr].
  destruct (loc_of_record (Zpos q) l) as [-> ->].
  apply finish_24; [assumption | lia | apply rne_cases].
Qed.

(** Rounding a 25-digit mantissa: one bit is shifted out first. *)
Lemma round_aux_25 (sx : bool) (q : positive) (e : Z) (l : location) :
  digits q = 25 -> -149 <= e <= 102 ->
  exists mf ef, binary_round_aux 24 128 sx (Zpos q) e l = S754_finite sx mf ef /\
    (ef = e + 1 \/ (ef = e + 2 /\ 2 ^ 25 - 2 <= Zpos q)).
Proof.
  intros Hd He. rewrite round_aux_finish.
  unfold shr_fexp. cbn [Zdigits2]. pose proof Hd as Hd'. unfold digits in Hd'.
  rewrite Hd', fexp_normal by lia.
  replace (25 + e - 24 - e) with 1 by lia. cbn [shr iter_pos].
  pose proof (digits_bounds q) as [Blo Bhi]. rewrite Hd in Blo, Bhi.
  assert (Hhalf : exists p r s,
            shr_1 (shr_record_of_loc (Zpos q) l) = Build_shr_record (Zpos p) r s /\
            digits p = 24 /\ 2 * Zpos p <= Zpos q <= 2 * Zpos p + 1).
  { destruct q as [p|p|].
    - exists p. destruct l as [|[]]; do 2 eexists; (split; [reflexivity|]);
        (split; [apply digits_unique; lia | lia]).
    - exists p. destruct l as [|[]]; do 2 eexists; (split; [reflexivity|]);
        (split; [apply digits_unique; lia | lia]).
    - cbn in Blo. lia. }
  destruct Hhalf as (p & r & s & -> & Hp & Hq).
  cbn [shr_m].
  destruct (finish_24 sx p (e + 1)
              (round_nearest_even (Zpos p)
                 (loc_of_shr_record (Build_shr_record (Zpos p) r s))))
    as (mf & ef & -> & Hef); [assumption | lia | apply rne_cases |].
  exists mf, ef. split; [reflexivity|].
  destruct Hef as [-> | [-> Hall]]; [left; lia | right; split; lia].
Qed.

Lemma canonical_mantissa_bounds (n : positive) :
  Zpos n < 2 ^ 24 ->
  digits (Z.to_pos (Zpos n * 2 ^ (24 - digits n))) = 24 /\
  2 ^ 23 <= Zpos n * 2 ^ (24 - digits n) < 2 ^ 24.
Proof.
  intros Hn. pose proof (digits_small n Hn) as Hd.
  assert (HD : digits (Z.to_pos (Zpos n * 2 ^ (24 - digits n))) = 24).
  { rewrite digits_scaled by lia. lia. }
  split; [exact HD|].
  pose proof (digits_bounds (Z.to_pos (Zpos n * 2 ^ (24 - digits n))))
    as B. rewrite HD, canonical_value in B by assumption. exact B.
Qed.

(** The quotient of the floats of two integers c < m below 2^24 is a
    positive float whose exponent is at most -24: it is below 1. *)
Lemma div_canonical (c m : positive) :
  Zpos c < Zpos m -> Zpos m < 2 ^ 24 ->
  exists mf ef,
    F32.div (canonical c) (canonical m) = S754_finite false mf ef /\
    ef <= -24.
Proof.
  intros Hcm Hm.
  assert (Hc : Zpos c < 2 ^ 24) by lia.
  pose proof (digits_small c Hc) as Hdc.
  pose proof (digits_small m Hm) as Hdm.
  pose proof (digits_mono c m ltac:(lia)) as Hmono.
  destruct (canonical_mantissa_bounds c Hc) as [HMcd HMc].
  destruct (canonical_mantissa_bounds m Hm) as [HMmd HMm].
  pose proof (canonical_value c Hc) as HMcv.
  pose proof (canonical_value m Hm) as HMmv.
  unfold F32.div, F32.prec, F32.emax, canonical.
  set (Mc := Z.to_pos (Zpos c * 2 ^ (24 - digits c))) in *.
  set (Mm := Z.to_pos (Zpos m * 2 ^ (24 - digits m))) in *.
  rewrite <- HMcv in HMc. rewrite <- HMmv in HMm.
  cbn [SFdiv xorb]. unfold SFdiv_core_binary. cbn [Zdigits2].
  unfold digits in HMcd, HMmd. rewrite HMcd, HMmd.
  replace (24 + (digits c - 24) - (24 + (digits m - 24)))
    with (digits c - digits m) by lia.
  rewrite fexp_normal by lia.
  rewrite Z.min_l by lia.
  replace (digits c - 24 - (digits m - 24) - (digits c - digits m - 24))
    with 24 by lia.
  rewrite Z.shiftl_mul_pow2 by lia.
  pose proof (Z_div_mod (Zpos Mc * 2 ^ 24) (Zpos Mm) ltac:(lia)) as Hdiv.
  destruct (Z.div_eucl (Zpos Mc * 2 ^ 24) (Zpos Mm)) as [q r].
  destruct Hdiv as [Hq Hr].
  assert (Hqlo : 2 ^ 23 <= q) by nia.
  assert (Hqhi : q < 2 ^ 25) by nia.
  destruct q as [|q|q]; try lia.
  (* when c and m have as many digits, the mantissa of c is the smaller *)
  assert (Hsame : digits c = digits m -> Zpos Mc + 1 <= Zpos Mm).
  { intros E. rewrite HMcv, HMmv, E.
    assert (0 < 2 ^ (24 - digits m)) by (apply Z.pow_pos_nonneg; lia). nia. }
  (* when c has fewer digits, its mantissa is even *)
  assert (Heven : digits c < digits m -> Zpos Mc <= 2 ^ 24 - 2).
  { intros E. rewrite HMcv in *.
    replace (24 - digits c) with (Z.succ (23 - digits c)) in * by lia.
    rewrite Z.pow_succ_r in * by lia. lia. }
  destruct (Z.lt_ge_cases (Zpos q) (2 ^ 24)) as [H24 | H25].
  - assert (Hd : digits q = 24) by (apply digits_unique; lia).
    destruct (round_aux_24 false q (digits c - digits m - 24)
                (new_location (Zpos Mm) r) Hd ltac:(lia))
      as (mf & ef & -> & Hef).
    exists mf, ef. split; [reflexivity|].
    destruct Hef as [-> | [-> Hall]]; [lia|].
    destruct (Z.eq_dec (digits c) (digits m)) as [E|E]; [|lia].
    specialize (Hsame E). nia.
  - assert (Hd : digits q = 25) by (apply digits_unique; lia).
    assert (Hfewer : digits c < digits m).
    { destruct (Z.eq_dec (digits c) (digits m)) as [E|E]; [|lia].
      specialize (Hsame E). nia. }
    destruct (round_aux_25 false q (digits c - digits m - 24)
                (new_location (Zpos Mm) r) Hd ltac:(lia))
      as (mf & ef & -> & Hef).
    exists mf, ef. split; [reflexivity|].
    destruct Hef as [-> | [-> Hall]]; [lia|].
    specialize (Heven Hfewer). nia.
Qed.

(** For 0 < cap < maxLen < 2^24 the factor is a float strictly between
    0 and 1. *)
Lemma factor_in_unit_interval (cap maxLen : Z) :
  0 < cap < maxLen -> maxLen < 2 ^ 24 ->
  let f := F32.div (F32.of_int cap) (F32.of_int maxLen) in
  F32.ltb F32.zero f = true /\ F32.ltb f F32.one = true.
Proof.
  intros [Hc Hcm] Hm f. subst f.
  destruct cap as [|c|c]; try lia. destruct maxLen as [|m|m]; try lia.
  rewrite !of_int_canonical by lia.
  destruct (div_canonical c m Hcm Hm) as (mf & ef & -> & Hef).
  split; [reflexivity|].
  unfold F32.ltb, SFltb.
  change F32.one with (S754_finite false 8388608 (-23)).
  cbn [SFcompare].
  replace (ef ?= -23) with Lt by (symmetry; apply Z.compare_lt_iff; lia).
  reflexivity.
Qed.

(** *** Signs: rounding keeps the sign, a quotient has the product's *)

Lemma round_aux_sign (sx : bool) (mx ex : Z) (lx : location) :
  sign_bit (binary_round_aux 24 128 sx mx ex lx) = None \/
  sign_bit (binary_round_aux 24 128 sx mx ex lx) = Some sx.
Proof.
  unfold binary_round_aux.
  destruct (shr_fexp 24 128 mx ex lx) as [m1 e1].
  destruct (shr_fexp 24 128 _ e1 loc_Exact) as [m2 e2].
  destruct (shr_m m2); [right | | left]; try reflexivity.
  destruct (e2 <=? 128 - 24); right; reflexivity.
Qed.

Lemma of_int_sign (n : Z) :
  sign_bit (F32.of_int n) = None \/
  sign_bit (F32.of_int n) = Some (n <? 0).
Proof.
  unfold F32.of_int, F32.prec, F32.emax, binary_normalize.
  destruct n as [|n|n]; [right; reflexivity | |];
    unfold binary_round; destruct (shl_align _ _ _) as [mz ez];
    apply round_aux_sign.
Qed.

Lemma div_sign (x y : float) :
  sign_bit (F32.div x y) = None \/
  exists sx sy, sign_bit x = Some sx /\ sign_bit y = Some sy /\
                sign_bit (F32.div x y) = Some (xorb sx sy).
Proof.
  unfold F32.div, F32.prec, F32.emax.
  destruct x as [sx|sx| |sx mx ex], y as [sy|sy| |sy my ey];
    cbn [SFdiv sign_bit]; try (left; reflexivity);
    try (right; exists sx, sy; repeat split; reflexivity).
  destruct (SFdiv_core_binary 24 128 (Z.pos mx) ex (Z.pos my) ey)
    as [[mz ez] lz].
  destruct (round_aux_sign (xorb sx sy) mz ez lz) as [N | P];
    [now left | right; now exists sx, sy].
Qed.

Lemma negative_not_positive (f : float) :
  sign_bit f = None \/ sign_bit f = Some true ->
  F32.ltb F32.zero f = false.
Proof.
  destruct f as [s|s| |s m e]; cbn [sign_bit]; intros [H | H];
    try discriminate; try reflexivity; injection H as ->; reflexivity.
Qed.

(** A cap that is not positive over a side that is not negative: the
    quotient is a zero, negative or a NaN, whatever the rounding. *)
Lemma factor_not_positive (cap maxLen : Z) :
  cap <= 0 -> 0 <= maxLen ->
  F32.ltb F32.zero (F32.div (F32.of_int cap) (F32.of_int maxLen)) = false.
Proof.
  intros Hc Hm.
  destruct (Z.eq_dec cap 0) as [-> | Hne].
  - change (F32.of_int 0) with (S754_zero false).
    destruct (F32.of_int maxLen); reflexivity.
  - apply negative_not_positive.
    destruct (div_sign (F32.of_int cap) (F32.of_int maxLen))
      as [N | (sx & sy & Hx & Hy & Hd)]; [now left | right].
    destruct (of_int_sign cap) as [F | Sx]; [congruence|].
    destruct (of_int_sign maxLen) as [F | Sy]; [congruence|].
    replace (cap <? 0) with true in Sx by (symmetry; apply Z.ltb_lt; lia).
    replace (maxLen <? 0) with false in Sy by (symmetry; apply Z.ltb_ge; lia).
    assert (sx = true) by congruence. assert (sy = false) by congruence.
    subst. exact Hd.
Qed.

End F32Facts.


(** ** Coefficient access *)

Module EigenFacts.
Import Eigen.

Lemma update_app (pre : Matrix) (p : point) (post : Matrix) f :
  update (List.length pre) f (pre ++ p :: post) = Some (pre ++ f p :: post).
Proof.
  induction pre as [|q pre IH]; simpl; [reflexivity|].
  now rewrite IH.
Qed.

Lemma update_beyond (m : Matrix) (col : nat) f :
  (List.length m <= col)%nat -> update col f m = None.
Proof.
  revert col; induction m as [|p m IH]; intros col Hle; simpl.
  - now destruct col.
  - simpl in Hle. destruct col as [|j]; [lia|].
    simpl. rewrite IH; [reflexivity | lia].
Qed.

Lemma update_length (m m' : Matrix) (col : nat) f :
  update col f m = Some m' -> List.length m' = List.length m.
Proof.
  revert col m'; induction m as [|p m IH]; intros col m'.
  - now destruct col.
  - destruct col as [|j]; simpl.
    + intros [= <-]; reflexivity.
    + destruct (update j f m) as [tl|] eqn:E; [|discriminate].
      intros [= <-]; simpl; f_equal; eauto.
Qed.

Lemma write_app (row : nat) (pre : Matrix) (p : point) (post : Matrix) v :
  (row < 2)%nat ->
  write row (List.length pre) v (pre ++ p :: post) =
  Ok (pre ++ (if Nat.eqb row 0 then (v, snd p) else (fst p, v)) :: post).
Proof.
  intros Hrow; unfold write.
  destruct row as [|[|row]]; [| |lia]; now rewrite update_app.
Qed.

Lemma write_beyond (row col : nat) (m : Matrix) v :
  (List.length m <= col)%nat -> write row col v m = Fault IndexOutOfRange.
Proof.
  intros Hle; unfold write.
  destruct row as [|[|row]]; [| |reflexivity];
    now rewrite update_beyond.
Qed.

Lemma write_cols (row col : nat) (m m' : Matrix) v :
  write row col v m = Ok m' -> cols m' = cols m.
Proof.
  unfold write, checked, cols.
  destruct row as [|[|row]]; [| |discriminate];
    (destruct (update col _ m) eqn:E; [|discriminate]);
    intros [= <-]; eapply update_length; eassumption.
Qed.

Lemma read_app (pre : Matrix) (p : point) (post : Matrix) :
  read 0 (List.length pre) (pre ++ p :: post) = Ok (fst p) /\
  read 1 (List.length pre) (pre ++ p :: post) = Ok (snd p).
Proof.
  unfold read.
  rewrite nth_error_app2 by lia.
  rewrite Nat.sub_diag; simpl; auto.
Qed.

Lemma resize_cols indet (m m' : Matrix) (n : Z) :
  resize indet m n = Ok m' -> Z.of_nat (cols m') = n.
Proof.
  unfold resize.
  destruct (n <? 0) eqn:Hn; [discriminate|].
  apply Z.ltb_ge in Hn.
  destruct (Nat.eqb (cols m) (Z.to_nat n)) eqn:E; intros [= <-].
  - apply Nat.eqb_eq in E; lia.
  - unfold cols; rewrite repeat_length; lia.
Qed.

Lemma resize_nat indet (m : Matrix) (n : nat) :
  exists m', resize indet m (Z.of_nat n) = Ok m' /\ cols m' = n.
Proof.
  unfold resize.
  destruct (Z.of_nat n <? 0) eqn:Hn; [apply Z.ltb_lt in Hn; lia|].
  rewrite Nat2Z.id.
  destruct (Nat.eqb (cols m) n) eqn:E.
  - apply Nat.eqb_eq in E; eauto.
  - eexists; split; [reflexivity|]. unfold cols; apply repeat_length.
Qed.

Lemma fill_cols v (m : Matrix) : cols (fill v m) = cols m.
Proof. unfold fill, cols; apply length_map. Qed.

Lemma fill_repeat v (m : Matrix) : fill v m = repeat (v, v) (cols m).
Proof.
  unfold fill, cols; induction m as [|p m IH]; simpl; [reflexivity|].
  now rewrite IH.
Qed.

End EigenFacts.

(** ** Streams and the two parsers *)

Module ParserFacts.
Import Text Stream Eigen DatabaseIO Spec EigenFacts.

(** [getline] delivers the pending lines one by one, then fails. *)
Lemma getline_pending (f : ifstream) (line : string) :
  match pending f with
  | [] => exists line' f', getline f line = (false, line', f') /\
                           pending f' = []
  | l :: rest => exists f', getline f line = (true, l, f') /\
                            pending f' = rest
  end.
Proof.
  unfold pending, getline.
  destruct f as [sg e fl]; simpl.
  destruct (e || fl)%bool eqn:Hbits.
  - do 2 eexists; split; [reflexivity|]. simpl. now rewrite orb_true_r.
  - destruct sg as [|l [|l2 rest]]; simpl.
    + do 2 eexists; split; reflexivity.
    + destruct l; simpl.
      * do 2 eexists; split; reflexivity.
      * eexists; split; reflexivity.
    + eexists; split; reflexivity.
Qed.

Section Asf.
Variable indet : float.

(** [asf_while] is the loop [while (std::getline(file, line)) ...]. *)
Lemma asf_while_getline (f : ifstream) (line : string) (st : asf_state) :
  asf_while indet f st =
  match getline f line with
  | (true, l, f') => st' <- asf_line indet l st ;; asf_while indet f' st'
  | (false, _, _) => Ok st
  end.
Proof.
  unfold asf_while, getline.
  destruct f as [sg e fl]; cbn [eofbit failbit segs].
  destruct (e || fl)%bool eqn:Hbits; [reflexivity|].
  destruct sg as [|l [|l2 rest]]; cbn [asf_lines];
    [reflexivity| |reflexivity].
  destruct l as [|c l]; [reflexivity|].
  cbn [eofbit failbit segs orb].
  destruct (asf_line indet (String c l) st); reflexivity.
Qed.

(** The loop's result depends on the pending lines only. *)
Lemma asf_lines_deliverable (unread : list string) (st : asf_state) :
  asf_lines indet unread st =
  fold_left (fun acc l => st' <- acc ;; asf_line indet l st')
            (deliverable unread) (Ok st).
Proof.
  revert st; induction unread as [|l rest IH]; intros st.
  - reflexivity.
  - destruct rest as [|l2 rest].
    + destruct l; reflexivity.
    + cbn [asf_lines]. change (deliverable (l :: l2 :: rest))
        with (l :: deliverable (l2 :: rest)).
      cbn [fold_left bind].
      destruct (asf_line indet l st) as [st'|e] eqn:E; cbn [bind].
      * apply IH.
      * clear. induction (deliverable (l2 :: rest)); simpl; auto.
Qed.

Lemma asf_count_result (line : string) (st : asf_state) :
  (0 <= atol line ->
   asf_count indet line st =
   Ok (mk_asf (repeat (F32.zero, F32.zero) (Z.to_nat (atol line)))
              (landmarkCount st))) /\
  (atol line < 0 -> asf_count indet line st = Fault NegativeSize).
Proof.
  unfold asf_count; split; intros Hn.
  - destruct (resize indet (asf_shape st) (atol line)) as [s'|e] eqn:E.
    + cbn [bind]. rewrite fill_repeat.
      apply resize_cols in E. do 3 f_equal. lia.
    + unfold resize in E.
      destruct (atol line <? 0) eqn:Hneg; [apply Z.ltb_lt in Hneg; lia|].
      destruct (Nat.eqb _ _); discriminate.
  - unfold resize. apply Z.ltb_lt in Hn. now rewrite Hn.
Qed.

Lemma parseAsfFile_flag (content : option string) (s s' : Shape)
    (b : bool) :
  parseAsfFile indet content s = Ok (b, s') ->
  (b = true <-> (0 < cols s')%nat).
Proof.
  unfold parseAsfFile.
  destruct (asf_while indet (Stream.open content) (mk_asf s 0))
    as [st|e]; cbn [bind]; [|discriminate].
  intros [= <- <-]. unfold rows.
  change (Nat.ltb 0 2) with true. cbn [andb].
  apply Nat.ltb_lt.
Qed.

Lemma parseAsfFile_unopened (s : Shape) :
  parseAsfFile indet None s = Ok (Nat.ltb 0 (cols s), s).
Proof. reflexivity. Qed.

End Asf.

(** *** The point loop of [parsePtsFile] *)

Lemma read_xy_point (l : string) :
  match point_of_line l with
  | Some p => exists str, read_xy (sstream_of l) = (Some (fst p), Some (snd p), str)
  | None => exists x y str, read_xy (sstream_of l) = (x, y, str) /\
                            (x = None \/ y = None)
  end.
Proof.
  unfold point_of_line.
  destruct (read_xy (sstream_of l)) as [[[x|] [y|]] str]; simpl; eauto 6.
Qed.

Lemma pts_iteration (n i : nat) (file : ifstream) (line : string)
    (s : Shape) :
  match pending file with
  | [] => pts_points (S n) i file line s = Ok (inl s)
  | l :: _ =>
      match point_of_line l with
      | Some p =>
          pts_points (S n) i file line s =
          (s <- write 0 i (F32.sub (fst p) F32.one) s ;;
           s <- write 1 i (F32.sub (snd p) F32.one) s ;;
           pts_points n (S i) (snd (getline file line)) l s)
      | None => exists e, pts_points (S n) i file line s = Fault e
      end
  end.
Proof.
  cbn [pts_points].
  pose proof (getline_pending file line) as G.
  destruct (pending file) as [|l rest].
  - destruct G as (line' & f' & -> & _). reflexivity.
  - destruct G as (f' & -> & _). cbn [negb snd].
    pose proof (read_xy_point l) as R.
    destruct (point_of_line l) as [p|].
    + destruct R as (str & ->). reflexivity.
    + destruct R as (x & y & str & -> & [-> | ->]); [eexists; reflexivity|].
      destruct x; [|eexists; reflexivity]. cbn [use bind].
      destruct (write 0 i _ s); eexists; reflexivity.
Qed.

Lemma pending_after_getline (file : ifstream) (line : string) :
  pending (snd (getline file line)) = tl (pending file).
Proof.
  pose proof (getline_pending file line) as G.
  destruct (pending file) as [|l rest].
  - destruct G as (line' & f' & E & P). rewrite E. exact P.
  - destruct G as (f' & E & P). rewrite E. exact P.
Qed.

(** When the loop runs to its end, every iteration found a line with
    two numbers and wrote them, less one, into the next column. *)
Lemma pts_points_complete (n : nat) :
  forall (file : ifstream) (line : string) (done rest : Shape) (s' : Shape),
  pts_points n (List.length done) file line (done ++ rest) = Ok (inr s') ->
  exists pts,
    Forall2 (fun l p => point_of_line l = Some p)
            (firstn n (pending file)) pts /\
    List.length pts = n /\
    (n <= List.length rest)%nat /\
    s' = done ++ map minus_one pts ++ skipn n rest.
Proof.
  induction n as [|n IH]; intros file line done rest s' H.
  - cbn in H. injection H as <-. exists []. repeat split; auto with arith.
  - pose proof (pts_iteration n (List.length done) file line
                  (done ++ rest)) as It.
    pose proof (pending_after_getline file line) as Htl.
    destruct (pending file) as [|l ls]; [congruence|].
    destruct (point_of_line l) as [p|] eqn:Hp;
      [|destruct It as (e & It); congruence].
    rewrite It in H; clear It.
    destruct rest as [|q rest].
    + rewrite write_beyond in H by (rewrite app_nil_r; lia). discriminate.
    + rewrite write_app in H by lia. cbn [bind Nat.eqb] in H.
      rewrite write_app in H by lia. cbn [bind Nat.eqb fst snd] in H.
      change (F32.sub (fst p) F32.one, F32.sub (snd p) F32.one)
        with (minus_one p) in H.
      specialize (IH (snd (getline file line)) l
                     (done ++ [minus_one p]) rest s').
      rewrite length_app, <- app_assoc in IH; cbn [List.length app] in IH.
      rewrite Nat.add_1_r in IH.
      destruct (IH H) as (pts & HF & Hlen & Hroom & ->).
      exists (p :: pts). rewrite Htl in HF. cbn [tl] in HF.
      repeat split.
      * cbn [firstn]. constructor; assumption.
      * simpl; lia.
      * simpl; lia.
      * rewrite <- app_assoc. reflexivity.
Qed.

(** When the loop returns early, every pending line held two numbers
    and was written, less one, into the next column; the columns after
    them are untouched. *)
Lemma pts_points_partial (n : nat) :
  forall (file : ifstream) (line : string) (done rest : Shape) (s' : Shape),
  pts_points n (List.length done) file line (done ++ rest) = Ok (inl s') ->
  exists pts,
    Forall2 (fun l p => point_of_line l = Some p) (pending file) pts /\
    (List.length pts < n)%nat /\
    s' = done ++ map minus_one pts ++ skipn (List.length pts) rest.
Proof.
  induction n as [|n IH]; intros file line done rest s' H.
  - cbn in H. discriminate.
  - pose proof (pts_iteration n (List.length done) file line
                  (done ++ rest)) as It.
    pose proof (pending_after_getline file line) as Htl.
    destruct (pending file) as [|l ls].
    + rewrite It in H. injection H as <-. exists [].
      split; [apply Forall2_nil|]. split; [cbn; lia | reflexivity].
    + destruct (point_of_line l) as [p|] eqn:Hp;
        [|destruct It as (e & It); congruence].
      rewrite It in H; clear It.
      destruct rest as [|q rest].
      * rewrite write_beyond in H by (rewrite app_nil_r; lia). discriminate.
      * rewrite write_app in H by lia. cbn [bind Nat.eqb] in H.
        rewrite write_app in H by lia. cbn [bind Nat.eqb fst snd] in H.
        change (F32.sub (fst p) F32.one, F32.sub (snd p) F32.one)
          with (minus_one p) in H.
        specialize (IH (snd (getline file line)) l
                       (done ++ [minus_one p]) rest s').
        rewrite length_app, <- app_assoc in IH; cbn [List.length app] in IH.
        rewrite Nat.add_1_r in IH.
        destruct (IH H) as (pts & HF & Hlen & ->).
        exists (p :: pts). rewrite Htl in HF. cbn [tl] in HF.
        repeat split.
        -- constructor; assumption.
        -- simpl; lia.
        -- rewrite <- app_assoc. reflexivity.
Qed.

Lemma skipn_repeat_zero (k n : nat) (x : point) :
  skipn k (repeat x n) = repeat x (n - k).
Proof.
  revert k; induction n as [|n IH]; intros k.
  - now destruct k.
  - destruct k as [|k]; [reflexivity|]. cbn [repeat skipn Nat.sub]. apply IH.
Qed.

(** When fewer lines are pending than iterations are due, and each
    pending line holds two numbers, the loop returns early. *)
Lemma pts_points_truncated (n : nat) :
  forall (file : ifstream) (line : string) (done rest : Shape),
  (List.length (pending file) < n)%nat ->
  (n <= List.length rest)%nat ->
  Forall (fun l => point_of_line l <> None) (pending file) ->
  exists s', pts_points n (List.length done) file line (done ++ rest)
             = Ok (inl s').
Proof.
  induction n as [|n IH]; intros file line done rest Hfew Hroom Hwf.
  - lia.
  - pose proof (pts_iteration n (List.length done) file line
                  (done ++ rest)) as It.
    pose proof (pending_after_getline file line) as Htl.
    destruct (pending file) as [|l ls]; [eauto|].
    inversion Hwf as [|? ? Hl Hls]; subst.
    destruct (point_of_line l) as [p|]; [|congruence].
    rewrite It; clear It.
    destruct rest as [|q rest]; [simpl in Hroom; lia|].
    rewrite write_app by lia. cbn [bind Nat.eqb].
    rewrite write_app by lia. cbn [bind Nat.eqb fst snd].
    specialize (IH (snd (getline file line)) l
                   (done ++ [(F32.sub (fst p) F32.one,
                              F32.sub (snd p) F32.one)]) rest).
    rewrite length_app, <- app_assoc in IH; cbn [List.length app] in IH.
    rewrite Nat.add_1_r in IH.
    apply IH.
    + rewrite Htl; simpl in *; lia.
    + simpl in Hroom; lia.
    + rewrite Htl; exact Hls.
Qed.

Section Pts.
Variable indet : float.

(** A successful parse: the declared count is not negative, and the
    shape holds, column by column, the numbers of the lines that
    followed the header, each less one. *)
Lemma parsePtsFile_success (content : option string) (s s' : Shape) :
  parsePtsFile indet content s = Ok (true, s') ->
  exists N line file pts,
    pts_header (Stream.open content) = (Some N, line, file) /\
    0 <= N /\
    Forall2 (fun l p => point_of_line l = Some p)
            (firstn (Z.to_nat N) (pending file)) pts /\
    List.length pts = Z.to_nat N /\
    s' = map minus_one pts.
Proof.
  unfold parsePtsFile.
  destruct (pts_header (Stream.open content)) as [[[N|] line] file];
    cbn [use bind]; [|discriminate].
  destruct (resize indet s N) as [s0|e] eqn:Hres; cbn [bind];
    [|discriminate].
  pose proof (resize_cols _ _ _ _ Hres) as Hcols.
  destruct (pts_points (Z.to_nat N) 0 file line (fill F32.zero s0))
    as [[sl|sr]|e] eqn:Hloop; cbn [bind]; try discriminate.
  intros [= <-].
  apply (pts_points_complete _ file line [] (fill F32.zero s0)) in Hloop.
  destruct Hloop as (pts & HF & Hlen & Hroom & ->).
  exists N, line, file, pts. repeat split; try assumption; [lia|].
  cbn [app]. rewrite skipn_all2, app_nil_r; [reflexivity|].
  pose proof (fill_cols F32.zero s0). unfold cols in *. lia.
Qed.

(** A failed parse: every line that followed the header held two
    numbers, there were fewer of them than declared, and the shape holds
    them, each less one, followed by the zeros of the fill. *)
Lemma parsePtsFile_failure (content : option string) (s s' : Shape) :
  parsePtsFile indet content s = Ok (false, s') ->
  exists N line file pts,
    pts_header (Stream.open content) = (Some N, line, file) /\
    Forall2 (fun l p => point_of_line l = Some p) (pending file) pts /\
    Z.of_nat (List.length pts) < N /\
    s' = map minus_one pts ++
         repeat (F32.zero, F32.zero) (Z.to_nat N - List.length pts).
Proof.
  unfold parsePtsFile.
  destruct (pts_header (Stream.open content)) as [[[N|] line] file];
    cbn [use bind]; [|discriminate].
  destruct (resize indet s N) as [s0|e] eqn:Hres; cbn [bind];
    [|discriminate].
  pose proof (resize_cols _ _ _ _ Hres) as Hcols.
  destruct (pts_points (Z.to_nat N) 0 file line (fill F32.zero s0))
    as [[sl|sr]|e] eqn:Hloop; cbn [bind]; try discriminate.
  intros [= <-].
  apply (pts_points_partial _ file line [] (fill F32.zero s0)) in Hloop.
  destruct Hloop as (pts & HF & Hlen & ->).
  exists N, line, file, pts. repeat split; try assumption; [lia|].
  cbn [app]. rewrite fill_repeat, skipn_repeat_zero.
  do 3 f_equal. lia.
Qed.

(** A parse that finds fewer lines after the header than declared. *)
Lemma parsePtsFile_truncated (content : option string) (s : Shape)
    (N : Z) (line : string) (file : ifstream) :
  pts_header (Stream.open content) = (Some N, line, file) ->
  Z.of_nat (List.length (pending file)) < N ->
  (forall s', parsePtsFile indet content s <> Ok (true, s')) /\
  (Forall (fun l => point_of_line l <> None) (pending file) ->
   exists s', parsePtsFile indet content s = Ok (false, s')).
Proof.
  intros Hhead Hfew. split.
  - intros s' H. apply parsePtsFile_success in H.
    destruct H as (N' & line' & file' & pts & Hh & HN & HF & Hlen & _).
    rewrite Hhead in Hh. injection Hh as <- <- <-.
    apply Forall2_length in HF. rewrite Hlen, length_firstn in HF. lia.
  - intros Hwf. unfold parsePtsFile. rewrite Hhead. cbn [use bind].
    destruct (resize indet s N) as [s0|e] eqn:Hres.
    + cbn [bind].
      pose proof (resize_cols _ _ _ _ Hres) as Hcols.
      destruct (pts_points_truncated (Z.to_nat N) file line []
                  (fill F32.zero s0)) as (s' & Hs'); try assumption.
      * lia.
      * pose proof (fill_cols F32.zero s0). unfold cols in *. lia.
      * cbn [List.length app] in Hs'. rewrite Hs'. cbn [bind]. eauto.
    + unfold resize in Hres.
      destruct (N <? 0) eqn:Hneg; [apply Z.ltb_lt in Hneg; lia|].
      destruct (Nat.eqb _ _); discriminate.
Qed.

End Pts.

(** For a file that cannot be opened nothing is stored into
    [numPoints], and the resize reads it all the same. *)
Lemma parsePtsFile_unopened (indet : float) (s : Shape) :
  parsePtsFile indet None s = Fault UninitializedRead.
Proof. reflexivity. Qed.

(** The header of a text with at least two lines: the count is read
    on the second line and the third is skipped. *)
Lemma pts_header_two_lines (content : option string)
    (l1 l2 : string) (rest : list string) :
  pending (Stream.open content) = l1 :: l2 :: rest ->
  exists line file,
    pts_header (Stream.open content) = (declared_count l2, line, file) /\
    pending file = tl rest.
Proof.
  intros Hp. unfold pts_header.
  pose proof (getline_pending (Stream.open content) EmptyString) as G1.
  rewrite Hp in G1. destruct G1 as (f1 & -> & Hp1).
  pose proof (getline_pending f1 l1) as G2.
  rewrite Hp1 in G2. destruct G2 as (f2 & -> & Hp2).
  unfold declared_count.
  destruct (extract_string (sstream_of l2)) as [tok str].
  destruct (extract_int str) as [vn str'].
  pose proof (pending_after_getline f2
                (match tok with Some t => t | None => l2 end)) as Htl.
  destruct (getline f2 _) as [[g3 l3] f3].
  do 2 eexists. split; [destruct vn; reflexivity|].
  cbn [snd] in Htl. now rewrite Htl, Hp2.
Qed.

End ParserFacts.

(** ** Text *)

Module TextFacts.
Import Text.




End TextFacts.

(** ** The mirror transform *)

Module MirrorFacts.
Import Eigen DatabaseIO Spec EigenFacts.

Section Mirror.
Context `{C : Collaborators}.
Variable img : Mat.

Let mp := mirror_point (mat_cols img).

Lemma mirror_column_app (a b : Matrix) (q : point)
    (a' d : Matrix) (p : point) :
  List.length a = List.length a' ->
  mirror_column img (a ++ q :: b) (List.length a) (a' ++ p :: d) =
  Ok (a' ++ mp q :: d).
Proof.
  intros Hlen; unfold mirror_column.
  destruct (read_app a q b) as [-> ->]; cbn [bind].
  rewrite Hlen, write_app by lia; cbn [bind].
  rewrite write_app by lia; reflexivity.
Qed.

(** The loop over columns [length a ..] of [a ++ b], writing into a
    destination that has room for them. *)
Lemma mirror_loop (b : Matrix) : forall (a a' d : Matrix),
  List.length a = List.length a' ->
  (List.length b <= List.length d)%nat ->
  for_loop (List.length b) (List.length a)
    (mirror_column img (a ++ b)) (a' ++ d) =
  Ok (a' ++ map mp b ++ skipn (List.length b) d).
Proof.
  induction b as [|q b IH]; intros a a' d Hlen Hroom;
    cbn [for_loop List.length].
  - reflexivity.
  - destruct d as [|p d]; [simpl in Hroom; lia|].
    rewrite mirror_column_app by assumption; cbn [bind].
    specialize (IH (a ++ [q]) (a' ++ [mp q]) d).
    rewrite !length_app, <- !app_assoc in IH; simpl in IH.
    rewrite Nat.add_1_r in IH.
    rewrite IH; [reflexivity | lia | simpl in Hroom; lia].
Qed.

(** The same loop when the destination is too short: the write
    that falls outside trips the index assertion. *)
Lemma mirror_loop_overflow (b : Matrix) : forall (a a' d : Matrix),
  List.length a = List.length a' ->
  (List.length d < List.length b)%nat ->
  for_loop (List.length b) (List.length a)
    (mirror_column img (a ++ b)) (a' ++ d) = Fault IndexOutOfRange.
Proof.
  induction b as [|q b IH]; intros a a' d Hlen Hshort;
    cbn [for_loop List.length].
  - simpl in Hshort; lia.
  - destruct d as [|p d].
    + unfold mirror_column.
      destruct (read_app a q b) as [-> _]; cbn [bind].
      rewrite write_beyond; [reflexivity|].
      rewrite app_nil_r; lia.
    + rewrite mirror_column_app by assumption; cbn [bind].
      specialize (IH (a ++ [q]) (a' ++ [mp q]) d).
      rewrite !length_app, <- !app_assoc in IH; simpl in IH.
      rewrite Nat.add_1_r in IH.
      apply IH; [lia | simpl in Hshort; lia].
Qed.

Lemma mirror_whole (src dst : Matrix) :
  (cols src <= cols dst)%nat ->
  for_loop (cols src) 0 (mirror_column img src) dst =
  Ok (map mp src ++ skipn (cols src) dst).
Proof.
  intros Hroom.
  exact (mirror_loop src [] [] dst eq_refl Hroom).
Qed.

Variable indet : float.

(** What the transform returns when the destination rectangle has
    room for the source rectangle's columns. *)
Lemma mirror_result (s : Shape) (r : Rect) (dstShape : Shape)
    (dstRect : Rect) :
  (cols r <= cols dstRect)%nat ->
  mirrorImageShapeAndRectVertically indet img s r dstShape dstRect =
  Ok (cv_flip img, map mp s, map mp r ++ skipn (cols r) dstRect).
Proof.
  intros Hroom; unfold mirrorImageShapeAndRectVertically.
  destruct (resize_nat indet dstShape (cols s)) as (dS & -> & HdS);
    cbn [bind].
  rewrite mirror_whole by lia; cbn [bind].
  rewrite mirror_whole by assumption; cbn [bind].
  rewrite <- HdS at 1. unfold cols. rewrite skipn_all, app_nil_r.
  reflexivity.
Qed.

Lemma mirror_overflow (s : Shape) (r : Rect) (dstShape : Shape)
    (dstRect : Rect) :
  (cols dstRect < cols r)%nat ->
  mirrorImageShapeAndRectVertically indet img s r dstShape dstRect =
  Fault IndexOutOfRange.
Proof.
  intros Hshort; unfold mirrorImageShapeAndRectVertically.
  destruct (resize_nat indet dstShape (cols s)) as (dS & -> & HdS);
    cbn [bind].
  rewrite mirror_whole by lia; cbn [bind].
  pose proof (mirror_loop_overflow r [] [] dstRect eq_refl Hshort) as E.
  cbn [List.length app] in E. unfold cols. now rewrite E.
Qed.

End Mirror.

End MirrorFacts.

(** ** The importers *)

Module ImportFacts.
Import Eigen DatabaseIO Spec.

Section Entries.
Context `{C : Collaborators}.
Variable RectCols : nat.
Variable indet : float.
Variable opts : ImportParameters.
Variable loadedRects : list Rect.

Ltac entry_cases H :=
  repeat match type of H with
    | bind ?c _ = Ok _ =>
        let E := fresh "E" in
        destruct c as [[[? ?] ?]|?] eqn:E; cbn [bind] in H;
        [|discriminate H]
    | bind ?c _ = Ok _ =>
        let E := fresh "E" in
        destruct c as [[? ?]|?] eqn:E; cbn [bind] in H;
        [|discriminate H]
    | bind ?c _ = Ok _ =>
        let E := fresh "E" in
        destruct c as [?|?] eqn:E; cbn [bind] in H; [|discriminate H]
    | (if ?b then _ else _) = Ok _ => destruct b eqn:?
    end.

Ltac count :=
  unfold grown, lengths, push_back; cbn [images shapes rects];
  rewrite ?length_app; cbn [List.length];
  apply f_equal2; [apply f_equal2|]; lia.

(** A dialect-A candidate adds nothing, one entry, or with the
    mirrored augmentation two entries, to each collection alike. *)
Lemma imm_entry_grows (path : string) (i : nat) (out out' : Outputs) :
  imm_entry RectCols indet opts loadedRects path i out = Ok out' ->
  out' = out \/
  (generateVerticallyMirrored opts = false /\ grown out out' 1 1 1) \/
  (generateVerticallyMirrored opts = true /\ grown out out' 2 2 2).
Proof.
  unfold imm_entry. intros H. entry_cases H;
    injection H as <-; auto; right; [right|left]; split; auto; count.
Qed.

(** A dialect-B candidate adds nothing or one entry; with the
    mirrored augmentation it adds two images, three shapes and one
    rectangle. *)
Lemma ibug_entry_grows (path : string) (i : nat) (out out' : Outputs) :
  ibug_entry RectCols indet opts loadedRects path i out = Ok out' ->
  out' = out \/
  (generateVerticallyMirrored opts = false /\ grown out out' 1 1 1) \/
  (generateVerticallyMirrored opts = true /\ grown out out' 2 3 1).
Proof.
  unfold ibug_entry. intros H. entry_cases H;
    injection H as <-; auto; right; [right|left]; split; auto; count.
Qed.

Lemma imm_entry_aligned (path : string) (i : nat) (out out' : Outputs) :
  imm_entry RectCols indet opts loadedRects path i out = Ok out' ->
  aligned out -> aligned out'.
Proof.
  intros H [Hi Hs].
  destruct (imm_entry_grows _ _ _ _ H) as [-> | [[_ G] | [_ G]]];
    [split; assumption | |];
    unfold grown, lengths in G; injection G as G1 G2 G3;
    unfold aligned; lia.
Qed.

Lemma imm_loop_aligned (paths : list string) :
  forall (i : nat) (out out' : Outputs),
  import_loop (imm_entry RectCols indet opts loadedRects) paths i out
    = Ok out' ->
  aligned out -> aligned out'.
Proof.
  induction paths as [|path rest IH]; intros i out out' H Hal;
    cbn [import_loop] in H.
  - now injection H as <-.
  - destruct (imm_entry RectCols indet opts loadedRects path i out)
      as [out1|e] eqn:E; cbn [bind] in H; [|discriminate].
    eapply IH; [exact H|]. eapply imm_entry_aligned; eassumption.
Qed.

(** Without the mirrored augmentation dialect B keeps the
    collections aligned as well. *)
Lemma ibug_loop_aligned (paths : list string) :
  generateVerticallyMirrored opts = false ->
  forall (i : nat) (out out' : Outputs),
  import_loop (ibug_entry RectCols indet opts loadedRects) paths i out
    = Ok out' ->
  aligned out -> aligned out'.
Proof.
  intros Hm.
  induction paths as [|path rest IH]; intros i out out' H Hal;
    cbn [import_loop] in H.
  - now injection H as <-.
  - destruct (ibug_entry RectCols indet opts loadedRects path i out)
      as [out1|e] eqn:E; cbn [bind] in H; [|discriminate].
    eapply IH; [exact H|].
    destruct (ibug_entry_grows _ _ _ _ E) as [-> | [[_ G] | [Hm' _]]];
      [assumption | | congruence].
    destruct Hal as [Hi Hs].
    unfold grown, lengths in G; injection G as G1 G2 G3.
    unfold aligned; lia.
Qed.

End Entries.

Lemma rects_mismatch (paths : list string) (loaded : list Rect) :
  loaded <> [] ->
  List.length paths <> List.length loaded ->
  rects_match paths loaded = false.
Proof.
  intros Hne Hlen. unfold rects_match.
  destruct loaded; [congruence|]. now apply Nat.eqb_neq.
Qed.

End ImportFacts.

(* ================================================================== *)
(** * The claims of the specification *)

Import Eigen DatabaseIO Spec.


(** ** C9 and C10: the mirror transform *)

Lemma nth_error_mirror (W : Z) (s : Matrix) (i : nat) (p : point) :
  nth_error s i = Some p ->
  nth_error (map (mirror_point W) s) i =
  Some (F32.sub (F32.of_int (W - 1)) (fst p), snd p).
Proof.
  intros H. rewrite nth_error_map, H. reflexivity.
Qed.

Lemma double_mirror_iff (W : Z) (s : Matrix) :
  map (mirror_point W) (map (mirror_point W) s) = s <->
  forall p, In p s ->
    F32.sub (F32.of_int (W - 1)) (F32.sub (F32.of_int (W - 1)) (fst p)) = fst p.
Proof.
  induction s as [|[x y] s IH]; simpl.
  - split; [intros _ p [] | reflexivity].
  - split.
    + intros [= Hx Hs] p [<- | Hin]; [exact Hx | now apply IH].
    + intros H. f_equal.
      * unfold mirror_point; simpl. f_equal. exact (H (x, y) (or_introl eq_refl)).
      * apply IH. intros p Hin. apply H. now right.
Qed.

Lemma double_mirror_integer (W : Z) (s : Matrix) :
  W - 1 < 2 ^ 24 ->
  (forall p, In p s ->
     exists x : Z, fst p = F32.of_int x /\ 0 <= x <= W - 1) ->
  map (mirror_point W) (map (mirror_point W) s) = s.
Proof.
  intros HW Hint. apply double_mirror_iff.
  intros p Hp. destruct (Hint p Hp) as (x & -> & Hx).
  now apply F32Facts.mirror_twice_integer.
Qed.

(** C9, as the code has it. For an image of width W the transform
    returns the flipped image and sends column i of the shape and of the
    rectangle to column i with x replaced by float(W - 1) - x, computed in
    single precision, and y unchanged. Applying the coordinate map twice
    gives back a shape exactly when, for each of its columns, the two
    subtractions round to the original x; they do for every integer x
    with 0 <= x <= W - 1 < 2^24. *)
Theorem mirror_maps_columns `{C : Collaborators} (indet : float)
    (img : Mat) (s : Shape) (r : Rect) (dstShape : Shape) (dstRect : Rect) :
  (cols r <= cols dstRect)%nat ->
  let W := mat_cols img in
  mirrorImageShapeAndRectVertically indet img s r dstShape dstRect =
    Ok (cv_flip img, map (mirror_point W) s,
        map (mirror_point W) r ++ skipn (cols r) dstRect) /\
  (forall i p, nth_error s i = Some p ->
     nth_error (map (mirror_point W) s) i =
     Some (F32.sub (F32.of_int (W - 1)) (fst p), snd p)) /\
  (forall i p, nth_error r i = Some p ->
     nth_error (map (mirror_point W) r) i =
     Some (F32.sub (F32.of_int (W - 1)) (fst p), snd p)) /\
  (map (mirror_point W) (map (mirror_point W) s) = s <->
   forall p, In p s ->
     F32.sub (F32.of_int (W - 1)) (F32.sub (F32.of_int (W - 1)) (fst p))
     = fst p) /\
  (W - 1 < 2 ^ 24 ->
   (forall p, In p s ->
      exists x : Z, fst p = F32.of_int x /\ 0 <= x <= W - 1) ->
   map (mirror_point W) (map (mirror_point W) s) = s).
Proof.
  intros Hroom W. split; [|split; [|split; [|split]]].
  - now apply MirrorFacts.mirror_result.
  - intros i p; apply nth_error_mirror.
  - intros i p; apply nth_error_mirror.
  - apply double_mirror_iff.
  - apply double_mirror_integer.
Qed.

Lemma mirror_maps_columns_witness :
  mirrorImageShapeAndRectVertically (C := World.collaborators World.ibug_disk)
    Samples.nan Samples.small_raster Samples.three_points
    (World.tight_bounds Samples.three_points) Shape_default
    (Rect_default 4 Samples.nan) =
  Ok (World.flip_raster Samples.small_raster,
      map (mirror_point 8) Samples.three_points,
      map (mirror_point 8) (World.tight_bounds Samples.three_points)
        ++ skipn 4 (Rect_default 4 Samples.nan)).
Proof.
  refine (proj1 (mirror_maps_columns (C := World.collaborators World.ibug_disk)
            Samples.nan Samples.small_raster Samples.three_points
            (World.tight_bounds Samples.three_points) Shape_default
            (Rect_default 4 Samples.nan) _)).
  vm_compute. lia.
Defined.

(** C9 as stated fails: with W = 101 the point x = 0.1f is sent to
    100 - 0.1f, which rounds, and the second application returns a
    float other than 0.1f. *)
Lemma double_mirror_loses_tenth :
  Samples.mirror_twice Samples.wide_raster [(Samples.tenth, F32.zero)]
    (World.tight_bounds [(Samples.tenth, F32.zero)]) =
  Ok [(S754_finite false 13421568 (-27), F32.zero)] /\
  Samples.tenth = S754_finite false 13421773 (-27) /\
  S754_finite false 13421568 (-27) <> Samples.tenth.
Proof.
  split; [vm_compute; reflexivity|].
  split; [vm_compute; reflexivity|].
  vm_compute. discriminate.
Qed.

(** C10. Every write of the transform is inside the matrix it writes:
    the destination shape is first resized to the source's column count,
    and a destination rectangle with at least the source rectangle's
    columns receives each of them (a shorter one would trip the index
    assertion); so for a source Rect (of [RectCols] columns) and a
    default-constructed destination Rect, as at both importer call
    sites, the transform completes and no index assertion trips. *)
Theorem mirror_writes_in_bounds `{C : Collaborators} (RectCols : nat)
    (indet : float) (img : Mat) (s : Shape) (r : Rect) (dstShape : Shape) :
  cols r = RectCols ->
  (forall dstRect : Rect, (cols r <= cols dstRect)%nat ->
     exists dS dR,
       mirrorImageShapeAndRectVertically indet img s r dstShape dstRect =
         Ok (cv_flip img, dS, dR) /\
       cols dS = cols s /\ cols dR = cols dstRect) /\
  (forall dstRect : Rect, (cols dstRect < cols r)%nat ->
     mirrorImageShapeAndRectVertically indet img s r dstShape dstRect =
     Fault IndexOutOfRange) /\
  mirrorImageShapeAndRectVertically indet img s r
    Shape_default (Rect_default RectCols indet) =
  Ok (cv_flip img, map (mirror_point (mat_cols img)) s,
      map (mirror_point (mat_cols img)) r).
Proof.
  intros Hr. split; [|split].
  - intros dstRect Hroom.
    rewrite MirrorFacts.mirror_result by assumption.
    do 2 eexists. split; [reflexivity|]. unfold cols in *.
    rewrite length_map, length_app, length_map, length_skipn. lia.
  - intros dstRect Hshort. now apply MirrorFacts.mirror_overflow.
  - rewrite MirrorFacts.mirror_result.
    + unfold Rect_default, cols in *.
      rewrite skipn_all2, app_nil_r; [reflexivity|].
      rewrite repeat_length; lia.
    + unfold Rect_default, cols in *. rewrite repeat_length; lia.
Qed.

Lemma mirror_writes_in_bounds_witness :
  mirrorImageShapeAndRectVertically (C := World.collaborators World.ibug_disk)
    Samples.nan Samples.small_raster Samples.three_points
    (World.tight_bounds Samples.three_points) Shape_default
    (Rect_default 4 Samples.nan) =
  Ok (World.flip_raster Samples.small_raster,
      map (mirror_point 8) Samples.three_points,
      map (mirror_point 8) (World.tight_bounds Samples.three_points)).
Proof.
  exact (proj2 (proj2 (mirror_writes_in_bounds
                  (C := World.collaborators World.ibug_disk) 4
                  Samples.nan Samples.small_raster Samples.three_points
                  (World.tight_bounds Samples.three_points) Shape_default
                  eq_refl))).
Defined.

(** ** C4 to C7: the annotation parsers *)

(** C4 as stated fails for dialect A: a text that declares two
    landmarks and holds one record is parsed with success; the second
    column keeps the zeros of the fill. *)
Lemma asf_accepts_missing_records :
  Text.atol "2" = 2 /\
  parseAsfFile Samples.nan (Some Samples.asf_one_of_two) Shape_default =
  Ok (true, [(Samples.quarter, Samples.half); (F32.zero, F32.zero)]).
Proof. split; vm_compute; reflexivity. Qed.

(** C4, as the code has it. parsePtsFile never reports success when
    fewer lines follow its header than the count it read there, and it
    returns failure when each line that does follow holds two numbers.
    parseAsfFile returns failure for a file that cannot be opened
    whenever the shape it is given has no column, as a default-constructed
    one has; it does not compare the records it reads with the declared
    count. *)
Theorem parsers_report_failure (indet : float) :
  (forall (content : option string) (s : Shape) (N : Z) (line : string)
          (file : Stream.ifstream),
     pts_header (Stream.open content) = (Some N, line, file) ->
     Z.of_nat (List.length (pending file)) < N ->
     (forall s', parsePtsFile indet content s <> Ok (true, s')) /\
     (Forall (fun l => point_of_line l <> None) (pending file) ->
      exists s', parsePtsFile indet content s = Ok (false, s'))) /\
  (forall s : Shape,
     cols s = 0%nat -> parseAsfFile indet None s = Ok (false, s)) /\
  parseAsfFile indet None Shape_default = Ok (false, Shape_default).
Proof.
  split; [|split].
  - intros content s N line file Hhead Hfew.
    now apply ParserFacts.parsePtsFile_truncated with (N := N) (line := line)
                                                        (file := file).
  - intros s Hs. rewrite ParserFacts.parseAsfFile_unopened, Hs. reflexivity.
  - reflexivity.
Qed.

Lemma parsers_report_failure_witness :
  exists s', parsePtsFile Samples.nan (Some Samples.pts_two_of_three)
               Shape_default = Ok (false, s').
Proof.
  refine (proj2 (proj1 (parsers_report_failure Samples.nan)
                   (Some Samples.pts_two_of_three) Shape_default 3
                   "{" (Stream.mk_ifstream ["2 2"; "4 2"] false false)
                   _ _) _).
  - vm_compute. reflexivity.
  - vm_compute. reflexivity.
  - cbv [pending Stream.eofbit Stream.failbit Stream.segs orb deliverable].
    repeat (constructor; [vm_compute; discriminate|]). constructor.
Defined.

(** C5 as stated fails for dialect B: a text that declares zero points
    is parsed with success and yields a shape without columns. *)
Lemma pts_accepts_zero_points :
  parsePtsFile Samples.nan (Some Samples.pts_none) Shape_default =
  Ok (true, []) /\
  cols (@nil point) = 0%nat.
Proof. split; vm_compute; reflexivity. Qed.

(** C5, as the code has it. parseAsfFile returns success exactly when
    the shape it leaves has at least one column. parsePtsFile returns
    success with as many columns as the count N read in the header,
    and N may be 0. *)
Theorem parse_success_columns (indet : float) (content : option string)
    (s s' : Shape) :
  (forall b, parseAsfFile indet content s = Ok (b, s') ->
     (b = true <-> (0 < cols s')%nat)) /\
  (parsePtsFile indet content s = Ok (true, s') ->
   exists N line file,
     pts_header (Stream.open content) = (Some N, line, file) /\
     0 <= N /\ Z.of_nat (cols s') = N).
Proof.
  split.
  - intros b. apply ParserFacts.parseAsfFile_flag.
  - intros H. apply ParserFacts.parsePtsFile_success in H.
    destruct H as (N & line & file & pts & Hh & HN & _ & Hlen & ->).
    exists N, line, file. repeat split; try assumption.
    unfold cols. rewrite length_map, Hlen. lia.
Qed.

Lemma parse_success_columns_witness :
  exists N line file,
    pts_header (Stream.open (Some World.pts_example)) = (Some N, line, file) /\
    0 <= N /\ Z.of_nat (cols Samples.three_points) = N.
Proof.
  refine (proj2 (parse_success_columns Samples.nan (Some World.pts_example)
                   Shape_default Samples.three_points) _).
  vm_compute. reflexivity.
Defined.

(** C6. Whatever parsePtsFile returns, each pair of numbers it read
    on a line after the header is stored less 1.f, x and y alike, in the
    column of that line: on success the shape is exactly those N columns,
    on failure those read before the lines ran out, followed by the zeros
    of the fill. The text of the specification's example gives the
    columns (1,1), (3,1), (2,3). *)
Theorem parsePtsFile_subtracts_one (indet : float) :
  (forall (content : option string) (s s' : Shape),
     parsePtsFile indet content s = Ok (true, s') ->
     exists N line file pts,
       pts_header (Stream.open content) = (Some N, line, file) /\
       Forall2 (fun l p => point_of_line l = Some p)
               (firstn (Z.to_nat N) (pending file)) pts /\
       s' = map (fun p => (F32.sub (fst p) F32.one, F32.sub (snd p) F32.one))
                pts) /\
  (forall (content : option string) (s s' : Shape),
     parsePtsFile indet content s = Ok (false, s') ->
     exists N line file pts,
       pts_header (Stream.open content) = (Some N, line, file) /\
       Forall2 (fun l p => point_of_line l = Some p) (pending file) pts /\
       s' = map (fun p => (F32.sub (fst p) F32.one, F32.sub (snd p) F32.one))
                pts ++
            repeat (F32.zero, F32.zero) (Z.to_nat N - List.length pts)) /\
  parsePtsFile indet (Some World.pts_example) Shape_default =
  Ok (true, [(F32.of_int 1, F32.of_int 1); (F32.of_int 3, F32.of_int 1);
             (F32.of_int 2, F32.of_int 3)]).
Proof.
  split; [|split].
  - intros content s s' H. apply ParserFacts.parsePtsFile_success in H.
    destruct H as (N & line & file & pts & Hh & _ & HF & _ & ->).
    exists N, line, file, pts. auto.
  - intros content s s' H. apply ParserFacts.parsePtsFile_failure in H.
    destruct H as (N & line & file & pts & Hh & HF & _ & ->).
    exists N, line, file, pts. auto.
  - vm_compute. reflexivity.
Qed.

Lemma parsePtsFile_subtracts_one_witness :
  exists N line file pts,
    pts_header (Stream.open (Some World.pts_example)) = (Some N, line, file) /\
    Forall2 (fun l p => point_of_line l = Some p)
            (firstn (Z.to_nat N) (pending file)) pts /\
    Samples.three_points =
    map (fun p => (F32.sub (fst p) F32.one, F32.sub (snd p) F32.one)) pts.
Proof.
  refine (proj1 (parsePtsFile_subtracts_one Samples.nan)
            (Some World.pts_example) Shape_default Samples.three_points _).
  vm_compute. reflexivity.
Defined.




(** ** C8: the scale decision *)

(** C8 as stated fails on the bound of the factor: a cap of 0 gives the
    factor 0, and with cap 2^24 and a side of 2^24 + 1, which rounds to
    2^24 as a float, the factor is 1. Neither is strictly between 0
    and 1. *)
Lemma factor_outside_open_interval :
  imageNeedsScaling (mk_Size 200 50) (mk_ImportParameters 0 false) None =
    (true, Some F32.zero) /\
  F32.ltb F32.zero F32.zero = false /\
  imageNeedsScaling (mk_Size 16777217 1)
    (mk_ImportParameters 16777216 false) None = (true, Some F32.one) /\
  F32.ltb F32.one F32.one = false.
Proof. repeat split; vm_compute; reflexivity. Qed.

(** Why the sign of the factor needs a side that is not negative: a
    negative cap over a negative size gives a positive factor. *)
Lemma negative_size_positive_factor :
  exists f,
    imageNeedsScaling (mk_Size (-3) (-3)) (mk_ImportParameters (-5) false)
      None = (true, Some f) /\
    F32.ltb F32.zero f = true /\ F32.ltb F32.one f = true.
Proof. eexists. repeat split; vm_compute; reflexivity. Qed.

Lemma ratio_in_unit_interval (cap maxLen : Z) :
  0 < cap < maxLen ->
  (0 < inject_Z cap / inject_Z maxLen)%Q /\
  (inject_Z cap / inject_Z maxLen < 1)%Q.
Proof.
  intros [Hcap Hlt].
  assert (Hm : (0 < inject_Z maxLen)%Q) by (rewrite <- (Zlt_Qlt 0); lia).
  split.
  - apply Qlt_shift_div_l; [exact Hm|].
    rewrite Qmult_0_l. rewrite <- (Zlt_Qlt 0). exact Hcap.
  - apply Qlt_shift_div_r; [exact Hm|].
    rewrite Qmult_1_l. rewrite <- Zlt_Qlt. exact Hlt.
Qed.

(** C8, as the code has it. With maxLen = max(width, height),
    imageNeedsScaling returns true exactly when maxLen exceeds the cap,
    and then stores the single-precision quotient of float(cap) by
    float(maxLen); otherwise it returns false and leaves the factor as
    it was. For a positive cap the exact ratio cap / maxLen lies
    strictly between 0 and 1, and so does the stored float whenever
    maxLen < 2^24. For a cap of 0 or less and a maxLen that is not
    negative the stored float is not greater than 0. With a cap of 100
    the size (200,50) gives true with factor 0.5 and the size (80,50)
    gives false. *)
Theorem imageNeedsScaling_decision (s : Size) (p : ImportParameters)
    (f0 : option float) :
  let cap := maxImageSideLength p in
  let maxLen := Z.max (width s) (height s) in
  (fst (imageNeedsScaling s p f0) = true <-> cap < maxLen) /\
  (cap < maxLen ->
   imageNeedsScaling s p f0 =
   (true, Some (F32.div (F32.of_int cap) (F32.of_int maxLen)))) /\
  (maxLen <= cap -> imageNeedsScaling s p f0 = (false, f0)) /\
  (0 < cap < maxLen ->
   (0 < inject_Z cap / inject_Z maxLen)%Q /\
   (inject_Z cap / inject_Z maxLen < 1)%Q) /\
  (0 < cap < maxLen -> maxLen < 2 ^ 24 ->
   exists f, snd (imageNeedsScaling s p f0) = Some f /\
             F32.ltb F32.zero f = true /\ F32.ltb f F32.one = true) /\
  (cap <= 0 -> cap < maxLen -> 0 <= maxLen ->
   exists f, snd (imageNeedsScaling s p f0) = Some f /\
             F32.ltb F32.zero f = false) /\
  imageNeedsScaling (mk_Size 200 50)
    (mk_ImportParameters 100 (generateVerticallyMirrored p)) f0 =
    (true, Some (F32.of_decimal false 5 (-1))) /\
  imageNeedsScaling (mk_Size 80 50)
    (mk_ImportParameters 100 (generateVerticallyMirrored p)) f0 = (false, f0).
Proof.
  intros cap maxLen. unfold imageNeedsScaling. fold cap maxLen.
  split; [|split; [|split; [|split; [|split; [|split; [|split]]]]]].
  - destruct (cap <? maxLen) eqn:E; cbn [fst].
    + split; [intros _; now apply Z.ltb_lt | reflexivity].
    + split; [discriminate | intros H; apply Z.ltb_lt in H; congruence].
  - intros H. apply Z.ltb_lt in H. now rewrite H.
  - intros H. apply Z.ltb_ge in H. now rewrite H.
  - apply ratio_in_unit_interval.
  - intros Hc Hm. destruct Hc as [Hc Hcm].
    pose proof Hcm as Hlt. apply Z.ltb_lt in Hlt. rewrite Hlt. cbn [snd].
    eexists. split; [reflexivity|].
    now apply F32Facts.factor_in_unit_interval.
  - intros Hc Hlt Hm. apply Z.ltb_lt in Hlt. rewrite Hlt. cbn [snd].
    eexists. split; [reflexivity|].
    now apply F32Facts.factor_not_positive.
  - reflexivity.
  - reflexivity.
Qed.

Lemma imageNeedsScaling_decision_witness :
  (exists f,
     snd (imageNeedsScaling (mk_Size 200 50) (mk_ImportParameters 100 false)
            None) = Some f /\
     F32.ltb F32.zero f = true /\ F32.ltb f F32.one = true) /\
  (exists f,
     snd (imageNeedsScaling (mk_Size 3 2) (mk_ImportParameters (-5) false)
            None) = Some f /\
     F32.ltb F32.zero f = false).
Proof.
  split.
  - refine (proj1 (proj2 (proj2 (proj2 (proj2
              (imageNeedsScaling_decision (mk_Size 200 50)
                 (mk_ImportParameters 100 false) None))))) _ _).
    + vm_compute. split; reflexivity.
    + vm_compute. reflexivity.
  - refine (proj1 (proj2 (proj2 (proj2 (proj2 (proj2
              (imageNeedsScaling_decision (mk_Size 3 2)
                 (mk_ImportParameters (-5) false) None)))))) _ _ _).
    + vm_compute. discriminate.
    + vm_compute. reflexivity.
    + vm_compute. discriminate.
Defined.

(** ** C1 to C3: the importers *)

(** C1 at its failing input. A dialect-B import with the mirrored
    augmentation of a directory with one well-formed candidate, into
    empty collections, returns success and leaves two images, three
    shapes and one rectangle: the mirrored rectangle went to the
    shapes. *)
Theorem ibug_mirrored_import_misaligned :
  exists out,
    importIBugAnnotatedFaceDatabase (C := World.collaborators World.ibug_disk)
      4 Samples.nan "dir" "" (World.no_outputs World.ibug_disk)
      (mk_ImportParameters 100 true) = Ok (true, out) /\
    lengths out = (2, 3, 1)%nat /\
    nth_error (shapes out) 2 =
      Some (map (mirror_point 8)
              (World.tight_bounds Samples.three_points)).
Proof.
  eexists. split; [vm_compute; reflexivity|].
  split; vm_compute; reflexivity.
Qed.

(** The same import in dialect A keeps the collections aligned. *)
Lemma imm_mirrored_import_aligned :
  exists out,
    importIMMFaceDatabase (C := World.collaborators World.imm_disk)
      4 Samples.nan "dir" "" (World.no_outputs World.imm_disk)
      (mk_ImportParameters 100 true) = Ok (true, out) /\
    lengths out = (2, 2, 2)%nat.
Proof.
  eexists. split; [vm_compute; reflexivity|]. vm_compute; reflexivity.
Qed.

(** C2 at its failing input. A dialect-A import of a directory whose
    only candidate has neither annotation nor image, into collections
    that already hold one entry, appends nothing and returns success. *)
Theorem imm_success_without_new_entry :
  importIMMFaceDatabase (C := World.collaborators World.barren_disk)
    4 Samples.nan "dir" "" (World.one_entry World.barren_disk)
    ImportParameters_default =
  Ok (true, World.one_entry World.barren_disk).
Proof. vm_compute. reflexivity. Qed.

(** C3. When the rectangles loaded are not none and their number is
    not the number of annotation files found for the dialect, each
    importer, and importDatabase through it, returns false with the
    three collections as they were passed in, whatever the candidate
    files hold. *)
Theorem rect_count_mismatch_aborts `{C : Collaborators} (RectCols : nat)
    (indet : float) (directory rectangleFile : string) (out : Outputs)
    (opts : ImportParameters) :
  let loaded := importRectangles rectangleFile in
  let asf := findFilesInDir directory "asf" true in
  let pts := findFilesInDir directory "pts" true in
  loaded <> [] ->
  (List.length asf <> List.length loaded ->
   importIMMFaceDatabase RectCols indet directory rectangleFile out opts
   = Ok (false, out)) /\
  (List.length pts <> List.length loaded ->
   importIBugAnnotatedFaceDatabase RectCols indet directory rectangleFile
     out opts = Ok (false, out)) /\
  (List.length (match asf with [] => pts | _ => asf end)
     <> List.length loaded ->
   importDatabase RectCols indet directory rectangleFile out opts
   = Ok (false, out)).
Proof.
  intros loaded asf pts Hne.
  assert (Himm : List.length asf <> List.length loaded ->
                 importIMMFaceDatabase RectCols indet directory
                   rectangleFile out opts = Ok (false, out)).
  { intros Hlen. unfold importIMMFaceDatabase. fold asf loaded.
    now rewrite ImportFacts.rects_mismatch. }
  assert (Hibug : List.length pts <> List.length loaded ->
                  importIBugAnnotatedFaceDatabase RectCols indet directory
                    rectangleFile out opts = Ok (false, out)).
  { intros Hlen. unfold importIBugAnnotatedFaceDatabase. fold pts loaded.
    now rewrite ImportFacts.rects_mismatch. }
  repeat split; try assumption.
  intros Hlen. unfold importDatabase. fold asf pts.
  destruct asf as [|a asf'] eqn:Ea.
  - cbn [List.length Nat.ltb Nat.leb].
    destruct pts as [|b pts'] eqn:Eb; [reflexivity|].
    cbn [List.length Nat.ltb Nat.leb]. now apply Hibug.
  - cbn [List.length Nat.ltb Nat.leb]. now apply Himm.
Qed.

Lemma rect_count_mismatch_aborts_witness :
  importDatabase (C := World.collaborators World.mismatch_disk)
    4 Samples.nan "dir" "rects.csv" (World.one_entry World.mismatch_disk)
    ImportParameters_default =
  Ok (false, World.one_entry World.mismatch_disk).
Proof.
  refine (proj2 (proj2 (rect_count_mismatch_aborts
                          (C := World.collaborators World.mismatch_disk)
                          4 Samples.nan "dir" "rects.csv"
                          (World.one_entry World.mismatch_disk)
                          ImportParameters_default _)) _).
  - vm_compute. discriminate.
  - vm_compute. lia.
Defined.

(* ================================================================== *)
(** * Further properties of the code *)

Import More.

(** ** Lemmas on the parsers *)

Module MoreParserFacts.
Import Text Stream Eigen DatabaseIO Spec EigenFacts ParserFacts More.

Section Asf.
Variable indet : float.

Lemma asf_lines_run (unread : list string) :
  forall st, asf_lines indet unread st = asf_run indet (deliverable unread) st.
Proof.
  induction unread as [|l rest IH]; intros st; [reflexivity|].
  destruct rest as [|l2 rest].
  - destruct l as [|c l]; [reflexivity|].
    cbn [asf_lines deliverable asf_run].
    destruct (asf_line indet (String c l) st); reflexivity.
  - cbn [asf_lines]. change (deliverable (l :: l2 :: rest))
      with (l :: deliverable (l2 :: rest)).
    cbn [asf_run]. destruct (asf_line indet l st) as [st'|e]; cbn [bind];
      [apply IH | reflexivity].
Qed.

Lemma asf_while_run (file : ifstream) (st : asf_state) :
  asf_while indet file st = asf_run indet (pending file) st.
Proof.
  unfold asf_while, pending.
  destruct (eofbit file || failbit file)%bool; [reflexivity|].
  apply asf_lines_run.
Qed.

Lemma asf_line_skipped (l : string) (st : asf_state) :
  asf_skipped l = true -> asf_line indet l st = Ok st.
Proof.
  destruct l as [|c l]; [reflexivity|].
  unfold asf_skipped, asf_line.
  destruct (Ascii.eqb c "#"); cbn [negb orb]; [reflexivity|].
  intros ->. reflexivity.
Qed.

Lemma asf_run_kept (lines : list string) :
  forall st,
  asf_run indet lines st =
  asf_run indet (filter (fun l => negb (asf_skipped l)) lines) st.
Proof.
  induction lines as [|l rest IH]; intros st; [reflexivity|].
  cbn [filter asf_run].
  destruct (asf_skipped l) eqn:Hs; cbn [negb].
  - rewrite asf_line_skipped by assumption. cbn [bind]. apply IH.
  - cbn [asf_run]. destruct (asf_line indet l st); cbn [bind];
      [apply IH | reflexivity].
Qed.

Lemma parseAsfFile_run (content : option string) (s : Shape) :
  parseAsfFile indet content s =
  (st <- asf_run indet
           (filter (fun l => negb (asf_skipped l))
                   (pending (Stream.open content))) (mk_asf s 0) ;;
   Ok (Nat.ltb 0 (cols (asf_shape st)), asf_shape st)).
Proof.
  unfold parseAsfFile. rewrite asf_while_run, <- asf_run_kept. reflexivity.
Qed.

Lemma asf_line_not_skipped (l : string) (st : asf_state) :
  asf_skipped l = false ->
  asf_line indet l st =
  if strlen l <? 10 then asf_count indet l st else asf_record l st.
Proof.
  destruct l as [|c l]; [discriminate|].
  unfold asf_skipped, asf_line.
  destruct (Ascii.eqb c "#"); cbn [negb orb]; [discriminate|].
  intros ->. reflexivity.
Qed.

Lemma asf_line_count (l : string) (st : asf_state) :
  asf_is_count l = true -> 0 <= atol l ->
  asf_line indet l st =
  Ok (mk_asf (repeat (F32.zero, F32.zero) (Z.to_nat (atol l)))
             (landmarkCount st)).
Proof.
  unfold asf_is_count. intros H Hn. apply andb_prop in H as [Hk Hshort].
  apply negb_true_iff in Hk.
  rewrite asf_line_not_skipped, Hshort by assumption.
  now apply asf_count_result.
Qed.

Lemma asf_record_point (l : string) (p : point) (st : asf_state) :
  asf_point_of_line l = Some p ->
  asf_record l st =
  (s <- write 0 (landmarkCount st) (fst p) (asf_shape st) ;;
   s <- write 1 (landmarkCount st) (snd p) s ;;
   Ok (mk_asf s (S (landmarkCount st)))).
Proof.
  unfold asf_point_of_line, asf_record.
  destruct (extract_string (sstream_of l)) as [t1 s1].
  destruct (extract_string s1) as [t2 s2].
  destruct (read_xy s2) as [[[x|] [y|]] s3]; try discriminate.
  intros [= <-]. reflexivity.
Qed.

Lemma asf_line_record (l : string) (p : point) (st : asf_state) :
  asf_is_record l = true -> asf_point_of_line l = Some p ->
  asf_line indet l st =
  (s <- write 0 (landmarkCount st) (fst p) (asf_shape st) ;;
   s <- write 1 (landmarkCount st) (snd p) s ;;
   Ok (mk_asf s (S (landmarkCount st)))).
Proof.
  unfold asf_is_record. intros H Hp. apply andb_prop in H as [Hk Hlong].
  apply negb_true_iff in Hk. apply negb_true_iff in Hlong.
  rewrite asf_line_not_skipped, Hlong by assumption.
  now apply asf_record_point.
Qed.

Lemma asf_line_record_room (l : string) (p q : point) (done rest : Shape) :
  asf_is_record l = true -> asf_point_of_line l = Some p ->
  asf_line indet l (mk_asf (done ++ q :: rest) (List.length done)) =
  Ok (mk_asf (done ++ p :: rest) (S (List.length done))).
Proof.
  intros Hr Hp. rewrite (asf_line_record l p) by assumption.
  cbn [landmarkCount asf_shape].
  rewrite write_app by lia. cbn [bind Nat.eqb].
  rewrite write_app by lia. cbn [bind Nat.eqb fst snd].
  destruct p; reflexivity.
Qed.

Lemma asf_line_record_full (l : string) (p : point) (done : Shape) :
  asf_is_record l = true -> asf_point_of_line l = Some p ->
  asf_line indet l (mk_asf done (List.length done)) = Fault IndexOutOfRange.
Proof.
  intros Hr Hp. rewrite (asf_line_record l p) by assumption.
  cbn [landmarkCount asf_shape].
  rewrite write_beyond by lia. reflexivity.
Qed.

(** Records written one after another into the columns that are left. *)
Lemma asf_run_records (records : list string) :
  forall (pts : list point) (done rest : Shape),
  Forall2 (fun l p => asf_is_record l = true /\ asf_point_of_line l = Some p)
          records pts ->
  (List.length pts <= List.length rest)%nat ->
  asf_run indet records (mk_asf (done ++ rest) (List.length done)) =
  Ok (mk_asf (done ++ pts ++ skipn (List.length pts) rest)
             (List.length done + List.length pts)).
Proof.
  induction records as [|l records IH]; intros pts done rest HF Hroom.
  - inversion HF; subst. cbn. now rewrite Nat.add_0_r.
  - inversion HF as [|? p ? pts' [Hr Hp] HF']; subst.
    destruct rest as [|q rest]; [cbn in Hroom; lia|].
    cbn [asf_run]. rewrite (asf_line_record_room l p) by assumption.
    cbn [bind].
    specialize (IH pts' (done ++ [p]) rest HF').
    rewrite length_app, <- !app_assoc in IH. cbn [List.length app] in IH.
    rewrite Nat.add_1_r in IH. rewrite IH by (cbn in Hroom; lia).
    cbn [List.length skipn app]. do 2 f_equal. lia.
Qed.

End Asf.

(** *** The point loop of [parsePtsFile], for lines that hold points *)

Lemma pts_points_total (n : nat) :
  forall (file : ifstream) (line : string) (done rest : Shape)
         (pts : list point),
  Forall2 (fun l p => point_of_line l = Some p) (firstn n (pending file)) pts ->
  List.length pts = n ->
  (n <= List.length rest)%nat ->
  pts_points n (List.length done) file line (done ++ rest) =
  Ok (inr (done ++ map minus_one pts ++ skipn n rest)).
Proof.
  induction n as [|n IH]; intros file line done rest pts HF Hlen Hroom.
  - destruct pts; [|discriminate]. reflexivity.
  - pose proof (pts_iteration n (List.length done) file line
                  (done ++ rest)) as It.
    pose proof (pending_after_getline file line) as Htl.
    destruct (pending file) as [|l ls]; [inversion HF; subst; discriminate|].
    cbn [firstn] in HF. inversion HF as [|? p ? pts' Hp HF']; subst.
    rewrite Hp in It. rewrite It; clear It.
    destruct rest as [|q rest]; [cbn in Hroom; lia|].
    rewrite write_app by lia. cbn [bind Nat.eqb].
    rewrite write_app by lia. cbn [bind Nat.eqb fst snd].
    change (F32.sub (fst p) F32.one, F32.sub (snd p) F32.one)
      with (minus_one p).
    specialize (IH (snd (getline file line)) l (done ++ [minus_one p])
                   rest pts').
    rewrite length_app, <- app_assoc in IH; cbn [List.length app] in IH.
    rewrite Nat.add_1_r in IH. rewrite Htl in IH. cbn [tl] in IH.
    etransitivity;
      [apply IH; [assumption | cbn in Hlen; lia | cbn in Hroom; lia]|].
    cbn [map app skipn]. rewrite <- app_assoc. reflexivity.
Qed.

(** A pending line without two numbers: one of the two locals is read
    without having been written. *)
Lemma pts_points_bad_line (n i : nat) (file : ifstream) (line : string)
    (s : Shape) (bad : string) (rest : list string) :
  pending file = bad :: rest ->
  point_of_line bad = None ->
  (i < cols s)%nat ->
  pts_points (S n) i file line s = Fault UninitializedRead.
Proof.
  intros Hp Hbad Hi. cbn [pts_points].
  pose proof (getline_pending file line) as G. rewrite Hp in G.
  destruct G as (f' & -> & _). cbn [negb].
  unfold point_of_line in Hbad.
  destruct (read_xy (sstream_of bad)) as [[[x|] [y|]] str];
    try discriminate; try reflexivity.
  cbn [use bind].
  destruct (nth_error s i) as [q|] eqn:Hq;
    [|apply nth_error_None in Hq; unfold cols in Hi; lia].
  apply nth_error_split in Hq. destruct Hq as (pre & post & -> & <-).
  rewrite write_app by lia. reflexivity.
Qed.

Lemma pts_points_first_bad (good : list string) :
  forall (n : nat) (file : ifstream) (line : string) (done rest : Shape)
         (pts : list point) (bad : string) (more : list string),
  pending file = good ++ bad :: more ->
  Forall2 (fun l p => point_of_line l = Some p) good pts ->
  point_of_line bad = None ->
  (List.length good < n)%nat ->
  (n <= List.length rest)%nat ->
  pts_points n (List.length done) file line (done ++ rest) =
  Fault UninitializedRead.
Proof.
  induction good as [|l good IH];
    intros n file line done rest pts bad more Hp HF Hbad Hn Hroom.
  - destruct n as [|n]; [cbn in Hn; lia|].
    eapply pts_points_bad_line; [exact Hp | exact Hbad |].
    unfold cols. rewrite length_app. lia.
  - destruct n as [|n]; [cbn in Hn; lia|].
    inversion HF as [|? p ? pts' Hl HF']; subst.
    pose proof (pts_iteration n (List.length done) file line
                  (done ++ rest)) as It.
    pose proof (pending_after_getline file line) as Htl.
    rewrite Hp in It, Htl. cbn [app tl] in It, Htl. rewrite Hl in It.
    rewrite It; clear It.
    destruct rest as [|q rest]; [cbn in Hroom; lia|].
    rewrite write_app by lia. cbn [bind Nat.eqb].
    rewrite write_app by lia. cbn [bind Nat.eqb fst snd].
    specialize (IH n (snd (getline file line)) l
                   (done ++ [(F32.sub (fst p) F32.one,
                              F32.sub (snd p) F32.one)]) rest pts' bad more).
    rewrite length_app, <- app_assoc in IH; cbn [List.length app] in IH.
    rewrite Nat.add_1_r in IH.
    apply IH; try assumption; cbn in Hn, Hroom; lia.
Qed.

End MoreParserFacts.

(** ** Lemmas on the loop bodies *)

Module MoreImportFacts.
Import Eigen DatabaseIO Spec EigenFacts More.

Lemma scale_cols (m : Matrix) (f : float) : cols (scale m f) = cols m.
Proof. unfold scale, cols. apply length_map. Qed.

Lemma appended_nil {I : Type} (out : Collections I) : appended out out [] [] [].
Proof. unfold appended. now rewrite !app_nil_r. Qed.

Lemma appended_trans {I : Type} (a b c : Collections I)
    (i1 i2 : list I) (s1 s2 : list Shape) (r1 r2 : list Rect) :
  appended a b i1 s1 r1 -> appended b c i2 s2 r2 ->
  appended a c (i1 ++ i2) (s1 ++ s2) (r1 ++ r2).
Proof.
  intros (A1 & A2 & A3) (B1 & B2 & B3). unfold appended.
  now rewrite B1, B2, B3, A1, A2, A3, !app_assoc.
Qed.

Lemma appended_none {I : Type} (out out' : Collections I) :
  appended out out' [] [] [] -> out' = out.
Proof.
  intros (A1 & A2 & A3). rewrite !app_nil_r in *.
  destruct out, out'; cbn in *; congruence.
Qed.

Section Entries.
Context `{C : Collaborators}.
Variable RectCols : nat.
Variable indet : float.

(** A mirror transform that returned had room in its destination
    rectangle, and returned the flipped image and the mirrored columns. *)
Lemma mirror_returned (img : Mat) (s : Shape) (r : Rect) (dS0 : Shape)
    (dR0 : Rect) (m : Mat) (dS : Shape) (dR : Rect) :
  mirrorImageShapeAndRectVertically indet img s r dS0 dR0 = Ok (m, dS, dR) ->
  (cols r <= cols dR0)%nat /\
  m = cv_flip img /\
  dS = map (mirror_point (mat_cols img)) s /\
  dR = map (mirror_point (mat_cols img)) r ++ skipn (cols r) dR0.
Proof.
  intros H.
  destruct (Nat.le_gt_cases (cols r) (cols dR0)) as [Hroom | Hshort].
  - rewrite MirrorFacts.mirror_result in H by assumption.
    injection H as <- <- <-. auto.
  - rewrite MirrorFacts.mirror_overflow in H by assumption. discriminate.
Qed.

Variable opts : ImportParameters.
Variable loadedRects : list Rect.

(** The factor is read only after [imageNeedsScaling] has set it. *)
Lemma scale_if_needed_result (cvImg : Mat) (s : Shape) (r : Rect) :
  let maxLen := Z.max (mat_cols cvImg) (mat_rows cvImg) in
  let f := F32.div (F32.of_int (maxImageSideLength opts)) (F32.of_int maxLen) in
  scale_if_needed opts cvImg s r =
  if maxImageSideLength opts <? maxLen
  then match cv_resize cvImg f f with
       | Some img => Ok (img, scale s f, scale r f)
       | None => Fault UncaughtException
       end
  else Ok (cvImg, s, r).
Proof.
  unfold scale_if_needed, imageNeedsScaling, mat_size. cbn [width height].
  destruct (maxImageSideLength opts <? _); [|reflexivity].
  cbn [use bind]. unfold scaleImageShapeAndRect.
  destruct (cv_resize cvImg _ _); reflexivity.
Qed.

Lemma scale_if_needed_cols (cvImg img : Mat) (s s' : Shape) (r r' : Rect) :
  scale_if_needed opts cvImg s r = Ok (img, s', r') ->
  cols s' = cols s /\ cols r' = cols r.
Proof.
  rewrite scale_if_needed_result.
  destruct (maxImageSideLength opts <? _);
    [destruct (cv_resize cvImg _ _); [|discriminate]|];
    intros [= <- <- <-]; rewrite ?scale_cols; auto.
Qed.

Lemma pick_rect_index (s : Shape) (i j : nat) :
  loadedRects = [] -> pick_rect loadedRects s i = pick_rect loadedRects s j.
Proof. intros ->. reflexivity. Qed.

Ltac finish_entry :=
  let f := fresh "f" in
  destruct (pick_rect _ _ _) as [?|?]; cbn [bind]; [|reflexivity];
  destruct (scale_if_needed _ _ _ _) as [[[? ?] ?]|?]; cbn [bind];
    [|reflexivity];
  destruct (generateVerticallyMirrored _); [|reflexivity];
  destruct (mirrorImageShapeAndRectVertically _ _ _ _ _ _)
    as [[[? ?] ?]|?]; cbn [bind]; [|reflexivity];
  unfold push_back; cbn [images shapes rects];
  rewrite <- ?app_assoc; reflexivity.

(** The loop body of dialect A: the candidate, then the pushes. *)
Lemma imm_entry_candidate (path : string) (i : nat) (out : Outputs) :
  imm_entry RectCols indet opts loadedRects path i out =
  (c <- imm_candidate indet opts loadedRects path i ;;
   match c with
   | None => Ok out
   | Some (img, s, r) =>
       if generateVerticallyMirrored opts then
         '(f, sF, rF) <- mirrorImageShapeAndRectVertically indet img s r
                           Shape_default (Rect_default RectCols indet) ;;
         Ok (mk_Outputs (images out ++ [toDest img; toDest f])
                        (shapes out ++ [s; sF]) (rects out ++ [r; rF]))
       else Ok (mk_Outputs (images out ++ [toDest img])
                           (shapes out ++ [s]) (rects out ++ [r]))
   end).
Proof.
  unfold imm_entry, imm_candidate.
  destruct (parseAsfFile _ _ _) as [[b s]|e]; cbn [bind]; [|reflexivity].
  destruct (b && _)%bool; [|reflexivity].
  finish_entry.
Qed.

(** The loop body of dialect B: the mirrored rectangle goes to the
    shapes. *)
Lemma ibug_entry_candidate (path : string) (i : nat) (out : Outputs) :
  ibug_entry RectCols indet opts loadedRects path i out =
  (c <- ibug_candidate indet opts loadedRects path i ;;
   match c with
   | None => Ok out
   | Some (img, s, r) =>
       if generateVerticallyMirrored opts then
         '(f, sF, rF) <- mirrorImageShapeAndRectVertically indet img s r
                           Shape_default (Rect_default RectCols indet) ;;
         Ok (mk_Outputs (images out ++ [toDest img; toDest f])
                        (shapes out ++ [s; sF; rF]) (rects out ++ [r]))
       else Ok (mk_Outputs (images out ++ [toDest img])
                           (shapes out ++ [s]) (rects out ++ [r]))
   end).
Proof.
  unfold ibug_entry, ibug_candidate.
  destruct (parsePtsFile _ _ _) as [[b s]|e]; cbn [bind]; [|reflexivity].
  destruct (b && _)%bool; [|reflexivity].
  finish_entry.
Qed.

(** What a returning loop body has appended. *)
Lemma imm_entry_appended (path : string) (i : nat) (out out' : Outputs) :
  imm_entry RectCols indet opts loadedRects path i out = Ok out' ->
  exists ims ss rs,
    appended out out' ims ss rs /\
    ((ims = [] /\ ss = [] /\ rs = []) \/
     (List.length ims = per_candidate opts /\
      List.length ss = per_candidate opts /\
      List.length rs = per_candidate opts)).
Proof.
  rewrite imm_entry_candidate. unfold per_candidate.
  destruct (imm_candidate _ _ _ _ _) as [[[[img s] r]|]|e]; cbn [bind];
    [| |discriminate].
  - destruct (generateVerticallyMirrored opts).
    + destruct (mirrorImageShapeAndRectVertically _ _ _ _ _ _)
        as [[[f sF] rF]|e]; cbn [bind]; [|discriminate].
      intros [= <-]. do 3 eexists. split; [repeat split; reflexivity|].
      right. repeat split; reflexivity.
    + intros [= <-]. do 3 eexists. split; [repeat split; reflexivity|].
      right. repeat split; reflexivity.
  - intros [= <-]. exists [], [], []. split; [apply appended_nil | auto].
Qed.

Lemma ibug_entry_appended (path : string) (i : nat) (out out' : Outputs) :
  ibug_entry RectCols indet opts loadedRects path i out = Ok out' ->
  exists ims ss rs,
    appended out out' ims ss rs /\
    ((ims = [] /\ ss = [] /\ rs = []) \/
     (List.length ims = per_candidate opts /\
      List.length ss =
        (if generateVerticallyMirrored opts then 3 else 1)%nat /\
      List.length rs = 1%nat)).
Proof.
  rewrite ibug_entry_candidate. unfold per_candidate.
  destruct (ibug_candidate _ _ _ _ _) as [[[[img s] r]|]|e]; cbn [bind];
    [| |discriminate].
  - destruct (generateVerticallyMirrored opts).
    + destruct (mirrorImageShapeAndRectVertically _ _ _ _ _ _)
        as [[[f sF] rF]|e]; cbn [bind]; [|discriminate].
      intros [= <-]. do 3 eexists. split; [repeat split; reflexivity|].
      right. repeat split; reflexivity.
    + intros [= <-]. do 3 eexists. split; [repeat split; reflexivity|].
      right. repeat split; reflexivity.
  - intros [= <-]. exists [], [], []. split; [apply appended_nil | auto].
Qed.

(** A loop whose body appends nothing or a fixed number of items has
    appended that number for each of some k of its candidates. *)
Lemma loop_appended
    (entry : string -> nat -> Outputs -> result Outputs) (di ds dr : nat) :
  (forall path i out out', entry path i out = Ok out' ->
     exists ims ss rs,
       appended out out' ims ss rs /\
       ((ims = [] /\ ss = [] /\ rs = []) \/
        (List.length ims = di /\ List.length ss = ds /\
         List.length rs = dr))) ->
  forall paths i out out',
  import_loop entry paths i out = Ok out' ->
  exists ims ss rs k,
    appended out out' ims ss rs /\
    (k <= List.length paths)%nat /\
    List.length ims = (k * di)%nat /\
    List.length ss = (k * ds)%nat /\
    List.length rs = (k * dr)%nat.
Proof.
  intros Hentry. induction paths as [|path rest IH]; intros i out out' H;
    cbn [import_loop] in H.
  - injection H as <-. exists [], [], [], 0%nat.
    split; [apply appended_nil|]. cbn. repeat split; lia.
  - destruct (entry path i out) as [out1|e] eqn:E; cbn [bind] in H;
      [|discriminate].
    destruct (Hentry _ _ _ _ E) as (i1 & s1 & r1 & A1 & Hc).
    destruct (IH _ _ _ H) as (i2 & s2 & r2 & k & A2 & Hk & Li & Ls & Lr).
    pose proof (appended_trans _ _ _ _ _ _ _ _ _ A1 A2) as A.
    destruct Hc as [(-> & -> & ->) | (Hi & Hs & Hr)].
    + exists i2, s2, r2, k. cbn [app] in A. cbn [List.length].
      split; [exact A|]. repeat split; try assumption; lia.
    + exists (i1 ++ i2), (s1 ++ s2), (r1 ++ r2), (S k).
      rewrite !length_app. cbn [List.length].
      split; [exact A|]. repeat split; lia.
Qed.

(** The index plays no part when no rectangle was loaded. *)
Lemma imm_entry_index (path : string) (i j : nat) (out : Outputs) :
  loadedRects = [] ->
  imm_entry RectCols indet opts loadedRects path i out =
  imm_entry RectCols indet opts loadedRects path j out.
Proof.
  intros H. rewrite !imm_entry_candidate. unfold imm_candidate.
  destruct (parseAsfFile _ _ _) as [[b s]|e]; [|reflexivity]. cbn [bind].
  destruct (b && _)%bool; [|reflexivity].
  now rewrite (pick_rect_index _ i j H).
Qed.

Lemma ibug_entry_index (path : string) (i j : nat) (out : Outputs) :
  loadedRects = [] ->
  ibug_entry RectCols indet opts loadedRects path i out =
  ibug_entry RectCols indet opts loadedRects path j out.
Proof.
  intros H. rewrite !ibug_entry_candidate. unfold ibug_candidate.
  destruct (parsePtsFile _ _ _) as [[b s]|e]; [|reflexivity]. cbn [bind].
  destruct (b && _)%bool; [|reflexivity].
  now rewrite (pick_rect_index _ i j H).
Qed.

End Entries.

Section Loops.
Context `{C : Collaborators}.

Lemma import_loop_index
    (entry : string -> nat -> Outputs -> result Outputs) :
  (forall path i j out, entry path i out = entry path j out) ->
  forall paths i j out,
  import_loop entry paths i out = import_loop entry paths j out.
Proof.
  intros Hentry. induction paths as [|path rest IH]; intros i j out;
    [reflexivity|].
  cbn [import_loop]. rewrite (Hentry path i j).
  destruct (entry path j out); cbn [bind]; [apply IH | reflexivity].
Qed.

Lemma import_loop_app
    (entry : string -> nat -> Outputs -> result Outputs)
    (pre post : list string) :
  forall i out,
  import_loop entry (pre ++ post) i out =
  (out1 <- import_loop entry pre i out ;;
   import_loop entry post (i + List.length pre) out1).
Proof.
  induction pre as [|path pre IH]; intros i out.
  - cbn. now rewrite Nat.add_0_r.
  - cbn [app import_loop List.length].
    destruct (entry path i out); cbn [bind]; [|reflexivity].
    rewrite IH. now rewrite Nat.add_succ_comm.
Qed.

End Loops.
End MoreImportFacts.

(** ** Lemmas on the importers *)

Module MoreImporterFacts.
Import MoreImportFacts.

Section Importers.
Context `{C : Collaborators}.
Variable RectCols : nat.
Variable indet : float.
Variable directory rectangleFile : string.
Variable opts : ImportParameters.

Let loaded := importRectangles rectangleFile.

(** The two ways a dialect-A import returns. *)
Lemma imm_import_returned (out out' : Outputs) (b : bool) :
  importIMMFaceDatabase RectCols indet directory rectangleFile out opts
    = Ok (b, out') ->
  forall paths, paths = findFilesInDir directory "asf" true ->
  (rects_match paths loaded = false /\ b = false /\ out' = out) \/
  (rects_match paths loaded = true /\
   import_loop (imm_entry RectCols indet opts loaded) paths 0 out = Ok out' /\
   b = Nat.ltb 0 (List.length (shapes out'))).
Proof.
  unfold importIMMFaceDatabase. fold loaded. intros H paths ->.
  destruct (rects_match _ loaded); cbn [negb] in H.
  - right. destruct (import_loop _ _ 0 out) as [o|e]; cbn [bind] in H;
      [|discriminate].
    injection H as <- <-. auto.
  - left. injection H as <- <-. auto.
Qed.

(** The two ways a dialect-B import returns. *)
Lemma ibug_import_returned (out out' : Outputs) (b : bool) :
  importIBugAnnotatedFaceDatabase RectCols indet directory rectangleFile
    out opts = Ok (b, out') ->
  forall paths, paths = findFilesInDir directory "pts" true ->
  (rects_match paths loaded = false /\ b = false /\ out' = out) \/
  (rects_match paths loaded = true /\
   import_loop (ibug_entry RectCols indet opts loaded) paths 0 out = Ok out' /\
   b = (0 <? size_t_sub (List.length (shapes out'))
                        (List.length (images out)))).
Proof.
  unfold importIBugAnnotatedFaceDatabase. fold loaded. intros H paths ->.
  destruct (rects_match _ loaded); cbn [negb] in H.
  - right. destruct (import_loop _ _ 0 out) as [o|e]; cbn [bind] in H;
      [|discriminate].
    injection H as <- <-. auto.
  - left. injection H as <- <-. auto.
Qed.

Lemma imm_import_appended (out out' : Outputs) (b : bool) :
  importIMMFaceDatabase RectCols indet directory rectangleFile out opts
    = Ok (b, out') ->
  exists ims ss rs k,
    appended out out' ims ss rs /\
    (k <= List.length (findFilesInDir directory "asf" true))%nat /\
    List.length ims = (k * per_candidate opts)%nat /\
    List.length ss = (k * per_candidate opts)%nat /\
    List.length rs = (k * per_candidate opts)%nat.
Proof.
  intros H.
  destruct (imm_import_returned _ _ _ H _ eq_refl)
    as [(_ & _ & ->) | (_ & L & _)].
  - exists [], [], [], 0%nat. split; [apply appended_nil|].
    cbn. repeat split; lia.
  - eapply loop_appended; [|exact L].
    intros path i o o'. apply imm_entry_appended.
Qed.

Lemma ibug_import_appended (out out' : Outputs) (b : bool) :
  importIBugAnnotatedFaceDatabase RectCols indet directory rectangleFile
    out opts = Ok (b, out') ->
  exists ims ss rs k,
    appended out out' ims ss rs /\
    (k <= List.length (findFilesInDir directory "pts" true))%nat /\
    List.length ims = (k * per_candidate opts)%nat /\
    List.length ss =
      (k * (if generateVerticallyMirrored opts then 3 else 1))%nat /\
    List.length rs = (k * 1)%nat.
Proof.
  intros H.
  destruct (ibug_import_returned _ _ _ H _ eq_refl)
    as [(_ & _ & ->) | (_ & L & _)].
  - exists [], [], [], 0%nat. split; [apply appended_nil|].
    cbn. repeat split; lia.
  - eapply loop_appended; [|exact L].
    intros path i o o'. apply ibug_entry_appended.
Qed.

End Importers.

Lemma appended_lengths {I : Type} (out out' : Collections I)
    (ims : list I) (ss : list Shape) (rs : list Rect) :
  appended out out' ims ss rs ->
  List.length (images out') = (List.length (images out) + List.length ims)%nat /\
  List.length (shapes out') = (List.length (shapes out) + List.length ss)%nat /\
  List.length (rects out') = (List.length (rects out) + List.length rs)%nat.
Proof.
  intros (-> & -> & ->). now rewrite !length_app.
Qed.

Lemma appended_same {I : Type} (out out' : Collections I)
    (ims : list I) (ss : list Shape) (rs : list Rect) :
  appended out out' ims ss rs ->
  (out' = out <-> List.length ss = 0%nat /\ List.length ims = 0%nat
                  /\ List.length rs = 0%nat).
Proof.
  intros A. split.
  - intros ->. destruct A as (A1 & A2 & A3).
    apply (f_equal (@List.length _)) in A1, A2, A3.
    rewrite length_app in A1, A2, A3. lia.
  - intros (Hs & Hi & Hr).
    apply length_zero_iff_nil in Hs, Hi, Hr. subst.
    now apply appended_none.
Qed.

End MoreImporterFacts.

(** ** Lemmas on what a loop body stores *)

Module MoreEntryFacts.
Import MoreImportFacts.

Section Stored.
Context `{C : Collaborators}.
Variable RectCols : nat.
Variable indet : float.
Variable opts : ImportParameters.
Variable loadedRects : list Rect.

Lemma Rect_default_cols : cols (Rect_default RectCols indet) = RectCols.
Proof. unfold Rect_default, cols. apply repeat_length. Qed.

Lemma imm_entry_stored (path : string) (i : nat) (out : Outputs)
    (img : Mat) (s : Shape) (r : Rect) :
  imm_candidate indet opts loadedRects path i = Ok (Some (img, s, r)) ->
  (cols r <= RectCols)%nat ->
  imm_entry RectCols indet opts loadedRects path i out =
  Ok (stored RectCols indet opts false out img s r).
Proof.
  intros Hc Hr. rewrite imm_entry_candidate, Hc. cbn [bind]. unfold stored.
  destruct (generateVerticallyMirrored opts); [|reflexivity].
  rewrite MirrorFacts.mirror_result by now rewrite Rect_default_cols.
  reflexivity.
Qed.

Lemma ibug_entry_stored (path : string) (i : nat) (out : Outputs)
    (img : Mat) (s : Shape) (r : Rect) :
  ibug_candidate indet opts loadedRects path i = Ok (Some (img, s, r)) ->
  (cols r <= RectCols)%nat ->
  ibug_entry RectCols indet opts loadedRects path i out =
  Ok (stored RectCols indet opts true out img s r).
Proof.
  intros Hc Hr. rewrite ibug_entry_candidate, Hc. cbn [bind]. unfold stored.
  destruct (generateVerticallyMirrored opts); [|reflexivity].
  rewrite MirrorFacts.mirror_result by now rewrite Rect_default_cols.
  reflexivity.
Qed.

Lemma imm_entry_passed (path : string) (i : nat) (out : Outputs) :
  imm_candidate indet opts loadedRects path i = Ok None ->
  imm_entry RectCols indet opts loadedRects path i out = Ok out.
Proof. intros Hc. now rewrite imm_entry_candidate, Hc. Qed.

Lemma ibug_entry_passed (path : string) (i : nat) (out : Outputs) :
  ibug_candidate indet opts loadedRects path i = Ok None ->
  ibug_entry RectCols indet opts loadedRects path i out = Ok out.
Proof. intros Hc. now rewrite ibug_entry_candidate, Hc. Qed.

Lemma pick_rect_fits (s : Shape) (i : nat) :
  rects_fit RectCols loadedRects -> on_file loadedRects i ->
  exists r, pick_rect loadedRects s i = Ok r /\ (cols r <= RectCols)%nat.
Proof.
  unfold rects_fit, on_file. intros [Hb Hl] Hi. unfold pick_rect.
  destruct loadedRects as [|r0 rest] eqn:E.
  - eexists. split; [reflexivity | apply Hb].
  - destruct Hi as [F | Hi]; [discriminate|].
    destruct (nth_error (r0 :: rest) i) as [r|] eqn:N.
    + exists r. split; [reflexivity|].
      rewrite Forall_forall in Hl. apply Hl. eapply nth_error_In, N.
    + apply nth_error_None in N. lia.
Qed.

Lemma body_fits (img : Mat) (s : Shape) (i : nat) :
  rects_fit RectCols loadedRects -> on_file loadedRects i ->
  resize_returns opts img ->
  exists img' s' r',
    (r <- pick_rect loadedRects s i ;;
     e <- scale_if_needed opts img s r ;; Ok (Some e)) =
    Ok (Some (img', s', r')) /\ (cols r' <= RectCols)%nat.
Proof.
  intros Hf Hi Hz. destruct (pick_rect_fits s i Hf Hi) as (r & -> & Hr).
  cbn [bind]. rewrite scale_if_needed_result. unfold resize_returns in Hz.
  destruct (maxImageSideLength opts <? _) eqn:L; cbn [bind].
  - apply Z.ltb_lt in L. destruct (Hz L) as (img' & ->). cbn [bind].
    do 3 eexists. split; [reflexivity|]. now rewrite scale_cols.
  - do 3 eexists. split; [reflexivity | exact Hr].
Qed.

Lemma imm_entry_completes (path : string) (i : nat) (out : Outputs) :
  rects_fit RectCols loadedRects -> on_file loadedRects i ->
  resize_returns opts (imread (path ++ ".jpg")) ->
  (exists b s, parseAsfFile indet (file_content (path ++ ".asf"))
                 Shape_default = Ok (b, s)) ->
  exists out', imm_entry RectCols indet opts loadedRects path i out = Ok out'.
Proof.
  intros Hf Hi Hz (b & s & Hp).
  destruct (b && negb (mat_empty (imread (path ++ ".jpg"))))%bool eqn:Hc.
  - destruct (body_fits (imread (path ++ ".jpg"))
                (scale_row1
                   (scale_row0 s (F32.of_int (mat_cols (imread (path ++ ".jpg")))))
                   (F32.of_int (mat_rows (imread (path ++ ".jpg"))))) i Hf Hi Hz)
      as (img' & s' & r' & Hb & Hr).
    eexists. apply imm_entry_stored; [|exact Hr].
    unfold imm_candidate. rewrite Hp. cbn [bind]. rewrite Hc. exact Hb.
  - exists out. apply imm_entry_passed.
    unfold imm_candidate. rewrite Hp. cbn [bind]. now rewrite Hc.
Qed.

Lemma ibug_entry_completes (path : string) (i : nat) (out : Outputs) :
  rects_fit RectCols loadedRects -> on_file loadedRects i ->
  resize_returns opts (imread (path ++ ".jpg")) ->
  (exists b s, parsePtsFile indet (file_content (path ++ ".pts"))
                 Shape_default = Ok (b, s)) ->
  exists out', ibug_entry RectCols indet opts loadedRects path i out = Ok out'.
Proof.
  intros Hf Hi Hz (b & s & Hp).
  destruct (b && negb (mat_empty (imread (path ++ ".jpg"))))%bool eqn:Hc.
  - destruct (body_fits (imread (path ++ ".jpg")) s i Hf Hi Hz)
      as (img' & s' & r' & Hb & Hr).
    eexists. apply ibug_entry_stored; [|exact Hr].
    unfold ibug_candidate. rewrite Hp. cbn [bind]. rewrite Hc. exact Hb.
  - exists out. apply ibug_entry_passed.
    unfold ibug_candidate. rewrite Hp. cbn [bind]. now rewrite Hc.
Qed.

Lemma import_loop_completes
    (entry : string -> nat -> Outputs -> result Outputs) :
  forall paths i out,
  (forall path j o, In path paths -> on_file loadedRects j ->
     exists o', entry path j o = Ok o') ->
  (forall j, (j < List.length paths)%nat -> on_file loadedRects (i + j)) ->
  exists out', import_loop entry paths i out = Ok out'.
Proof.
  induction paths as [|path rest IH]; intros i out He Hi; cbn [import_loop].
  - now exists out.
  - destruct (He path i out (or_introl eq_refl)) as (o' & ->).
    + rewrite <- (Nat.add_0_r i). apply Hi. cbn. lia.
    + cbn [bind]. apply IH.
      * intros p j o Hp. apply He. now right.
      * intros j Hj. rewrite Nat.add_succ_comm. apply Hi. cbn. lia.
Qed.

Lemma rects_match_on_file (paths : list string) :
  rects_match paths loadedRects = true ->
  forall j, (j < List.length paths)%nat -> on_file loadedRects (0 + j).
Proof.
  unfold rects_match, on_file. intros H j Hj.
  destruct loadedRects as [|r0 rest] eqn:E; [now left | right].
  apply Nat.eqb_eq in H. cbn [Nat.add]. lia.
Qed.

End Stored.
End MoreEntryFacts.

Import Text Stream.

(** ** The annotation parsers *)

Lemma asf_run_app (indet : float) (a b : list string) :
  forall st,
  asf_run indet (a ++ b) st = (st' <- asf_run indet a st ;; asf_run indet b st').
Proof.
  induction a as [|l a IH]; intros st; [reflexivity|].
  cbn [app asf_run]. destruct (asf_line indet l st); cbn [bind];
    [apply IH | reflexivity].
Qed.

(** X1. parseAsfFile passes over empty lines, lines starting with '#'
    and lines containing ".jpg": two files whose remaining lines are the
    same, in the same order, give the same result for the same shape. *)
Theorem asf_skipped_lines_ignored (indet : float) (c1 c2 : option string)
    (s : Shape) :
  filter (fun l => negb (asf_skipped l)) (pending (Stream.open c1)) =
  filter (fun l => negb (asf_skipped l)) (pending (Stream.open c2)) ->
  parseAsfFile indet c1 s = parseAsfFile indet c2 s.
Proof.
  intros H. rewrite !MoreParserFacts.parseAsfFile_run, H. reflexivity.
Qed.

Lemma asf_skipped_lines_ignored_witness :
  parseAsfFile Samples.nan (Some World.asf_example) Shape_default =
  parseAsfFile Samples.nan (Some More.asf_bare) Shape_default.
Proof.
  apply asf_skipped_lines_ignored. vm_compute. reflexivity.
Defined.

(** X2. A dialect-A file whose lines, the skipped ones apart, are a
    count line giving N >= 0 and then at most N record lines with two
    numbers each: parseAsfFile returns the records' (x, y) in their
    order, followed by zero columns up to N, whatever the shape it was
    given; it reports success exactly when N > 0. *)
Theorem parseAsfFile_well_formed (indet : float) (content : option string)
    (s : Shape) (cnt : string) (records : list string) (pts : list point) :
  filter (fun l => negb (asf_skipped l)) (pending (Stream.open content)) =
    cnt :: records ->
  asf_is_count cnt = true ->
  0 <= atol cnt ->
  Forall2 (fun l p => asf_is_record l = true /\ asf_point_of_line l = Some p)
          records pts ->
  (List.length pts <= Z.to_nat (atol cnt))%nat ->
  parseAsfFile indet content s =
  Ok (Nat.ltb 0 (Z.to_nat (atol cnt)),
      pts ++ repeat (F32.zero, F32.zero)
               (Z.to_nat (atol cnt) - List.length pts)).
Proof.
  intros Hlines Hcnt HN HF Hroom.
  rewrite MoreParserFacts.parseAsfFile_run, Hlines. cbn [asf_run].
  rewrite MoreParserFacts.asf_line_count by assumption. cbn [bind landmarkCount].
  pose proof (MoreParserFacts.asf_run_records indet records pts []
                (repeat (F32.zero, F32.zero) (Z.to_nat (atol cnt))) HF) as R.
  cbn [app List.length] in R. rewrite R by (rewrite repeat_length; lia).
  cbn [bind asf_shape]. rewrite ParserFacts.skipn_repeat_zero.
  unfold cols. rewrite length_app, repeat_length.
  replace (List.length pts + (Z.to_nat (atol cnt) - List.length pts))%nat
    with (Z.to_nat (atol cnt)) by lia.
  reflexivity.
Qed.

Lemma parseAsfFile_well_formed_witness :
  parseAsfFile Samples.nan (Some World.asf_example) Shape_default =
  Ok (Nat.ltb 0 (Z.to_nat (atol "2")),
      [(Samples.quarter, Samples.half);
       (F32.of_decimal false 75 (-2), Samples.half)] ++
      repeat (F32.zero, F32.zero) (Z.to_nat (atol "2") - 2)).
Proof.
  apply (parseAsfFile_well_formed Samples.nan (Some World.asf_example)
           Shape_default "2"
           ["0 0 0.25000000 0.50000000 0 1 1";
            "0 0 0.75000000 0.50000000 1 0 0"]).
  - vm_compute. reflexivity.
  - vm_compute. reflexivity.
  - vm_compute. discriminate.
  - repeat (constructor; [split; vm_compute; reflexivity|]). constructor.
  - vm_compute. lia.
Defined.

(** X3. A record line that comes when every column is taken trips the
    index assertion of the shape: a count line giving N followed by
    N + 1 record lines, or a record line before any count line in a
    parse that started from a shape without columns. *)
Theorem parseAsfFile_too_many_records (indet : float)
    (content : option string) (s : Shape) (extra : string) (p : point)
    (more : list string) :
  asf_is_record extra = true ->
  asf_point_of_line extra = Some p ->
  (forall (cnt : string) (good : list string) (pts : list point),
     filter (fun l => negb (asf_skipped l)) (pending (Stream.open content)) =
       cnt :: good ++ extra :: more ->
     asf_is_count cnt = true ->
     0 <= atol cnt ->
     Forall2 (fun l q => asf_is_record l = true /\ asf_point_of_line l = Some q)
             good pts ->
     List.length good = Z.to_nat (atol cnt) ->
     parseAsfFile indet content s = Fault IndexOutOfRange) /\
  (filter (fun l => negb (asf_skipped l)) (pending (Stream.open content)) =
     extra :: more ->
   cols s = 0%nat ->
   parseAsfFile indet content s = Fault IndexOutOfRange).
Proof.
  intros Hextra Hp. split.
  - intros cnt good pts Hlines Hcnt HN HF Hfull.
    rewrite MoreParserFacts.parseAsfFile_run, Hlines. cbn [asf_run].
    rewrite MoreParserFacts.asf_line_count by assumption.
    cbn [bind landmarkCount]. rewrite asf_run_app.
    pose proof (Forall2_length HF) as Hlen.
    pose proof (MoreParserFacts.asf_run_records indet good pts []
                  (repeat (F32.zero, F32.zero) (Z.to_nat (atol cnt))) HF) as R.
    cbn [app List.length Nat.add] in R.
    rewrite R by (rewrite repeat_length; lia).
    cbn [bind asf_run]. rewrite ParserFacts.skipn_repeat_zero.
    replace (Z.to_nat (atol cnt) - List.length pts)%nat with 0%nat by lia.
    cbn [repeat]. rewrite app_nil_r.
    rewrite (MoreParserFacts.asf_line_record_full indet extra p pts)
      by assumption.
    reflexivity.
  - intros Hlines Hs.
    rewrite MoreParserFacts.parseAsfFile_run, Hlines. cbn [asf_run].
    destruct s; [|discriminate].
    pose proof (MoreParserFacts.asf_line_record_full indet extra p []
                  Hextra Hp) as E.
    cbn [List.length] in E. rewrite E. reflexivity.
Qed.

Lemma parseAsfFile_too_many_records_witness :
  parseAsfFile Samples.nan (Some More.asf_three_for_two) Shape_default =
  Fault IndexOutOfRange.
Proof.
  refine (proj1 (parseAsfFile_too_many_records Samples.nan
                   (Some More.asf_three_for_two) Shape_default
                   "0 0 0.50000000 0.50000000 2 0 0"
                   (Samples.half, Samples.half) [] _ _)
            "2" ["0 0 0.25000000 0.50000000 0 1 1";
                 "0 0 0.75000000 0.50000000 1 0 0"]
            [(Samples.quarter, Samples.half);
             (F32.of_decimal false 75 (-2), Samples.half)] _ _ _ _ _).
  - vm_compute. reflexivity.
  - vm_compute. reflexivity.
  - vm_compute. reflexivity.
  - vm_compute. reflexivity.
  - vm_compute. discriminate.
  - repeat (constructor; [split; vm_compute; reflexivity|]). constructor.
  - vm_compute. reflexivity.
Defined.

(** X4. A dialect-B file of three header lines, the second giving the
    count N after its first word, then N lines with two numbers each:
    parsePtsFile returns success with exactly those N columns, each
    coordinate less 1.f, whatever the first and third lines hold,
    whatever follows the N lines, and whatever shape it was given. *)
Theorem parsePtsFile_well_formed (indet : float) (content : option string)
    (s : Shape) (l1 l2 l3 : string) (body trailing : list string)
    (pts : list point) :
  pending (Stream.open content) = l1 :: l2 :: l3 :: body ++ trailing ->
  declared_count l2 = Some (Z.of_nat (List.length body)) ->
  Forall2 (fun l p => point_of_line l = Some p) body pts ->
  parsePtsFile indet content s = Ok (true, map minus_one pts).
Proof.
  intros Hp Hcount HF.
  destruct (ParserFacts.pts_header_two_lines content l1 l2
              (l3 :: body ++ trailing) Hp) as (line & file & Hh & Hfile).
  cbn [tl] in Hfile. rewrite Hcount in Hh.
  unfold parsePtsFile. rewrite Hh. cbn [use bind].
  destruct (EigenFacts.resize_nat indet s (List.length body))
    as (s0 & -> & Hs0). cbn [bind]. rewrite Nat2Z.id.
  pose proof (Forall2_length HF) as Hlen.
  pose proof (EigenFacts.fill_cols F32.zero s0) as Hfill. unfold cols in *.
  assert (Hfirst : firstn (List.length body) (pending file) = body).
  { rewrite Hfile, firstn_app, Nat.sub_diag, firstn_all. cbn [firstn].
    now rewrite app_nil_r. }
  rewrite <- Hfirst in HF.
  pose proof (MoreParserFacts.pts_points_total (List.length body) file line []
                (fill F32.zero s0) pts HF ltac:(lia) ltac:(lia)) as R.
  cbn [List.length app] in R. rewrite R. cbn [bind].
  rewrite skipn_all2, app_nil_r by lia. reflexivity.
Qed.

Lemma parsePtsFile_well_formed_witness :
  parsePtsFile Samples.nan (Some World.pts_example) Samples.three_points =
  Ok (true, map minus_one
              [(F32.of_int 2, F32.of_int 2); (F32.of_int 4, F32.of_int 2);
               (F32.of_int 3, F32.of_int 4)]).
Proof.
  apply (parsePtsFile_well_formed Samples.nan (Some World.pts_example)
           Samples.three_points "1.000000" "n_points: 3" "{"
           ["2 2"; "4 2"; "3 4"] ["}"]).
  - vm_compute. reflexivity.
  - vm_compute. reflexivity.
  - repeat (constructor; [vm_compute; reflexivity|]). constructor.
Defined.

(** X5. When one of the first N lines after the header of a dialect-B
    file does not hold two numbers (the closing brace of a file that
    declares more points than it gives, say), parsePtsFile does not
    return failure: it uses a coordinate that was never written. *)
Theorem parsePtsFile_malformed_line (indet : float)
    (content : option string) (s : Shape) (l1 l2 l3 : string)
    (good : list string) (bad : string) (more : list string)
    (pts : list point) (N : Z) :
  pending (Stream.open content) = l1 :: l2 :: l3 :: good ++ bad :: more ->
  declared_count l2 = Some N ->
  Z.of_nat (List.length good) < N ->
  Forall2 (fun l p => point_of_line l = Some p) good pts ->
  point_of_line bad = None ->
  parsePtsFile indet content s = Fault UninitializedRead.
Proof.
  intros Hp Hcount HN HF Hbad.
  destruct (ParserFacts.pts_header_two_lines content l1 l2
              (l3 :: good ++ bad :: more) Hp) as (line & file & Hh & Hfile).
  cbn [tl] in Hfile. rewrite Hcount in Hh.
  unfold parsePtsFile. rewrite Hh. cbn [use bind].
  destruct (resize indet s N) as [s0|e] eqn:Hres.
  - cbn [bind]. pose proof (EigenFacts.resize_cols _ _ _ _ Hres) as Hcols.
    pose proof (EigenFacts.fill_cols F32.zero s0) as Hfill. unfold cols in *.
    pose proof (MoreParserFacts.pts_points_first_bad good (Z.to_nat N) file
                  line [] (fill F32.zero s0) pts bad more Hfile HF Hbad
                  ltac:(lia) ltac:(lia)) as R.
    cbn [List.length app] in R. rewrite R. reflexivity.
  - unfold resize in Hres.
    destruct (N <? 0) eqn:Hneg; [apply Z.ltb_lt in Hneg; lia|].
    destruct (Nat.eqb _ _); discriminate.
Qed.

Lemma parsePtsFile_malformed_line_witness :
  parsePtsFile Samples.nan (Some More.pts_brace_for_point) Shape_default =
  Fault UninitializedRead.
Proof.
  apply (parsePtsFile_malformed_line Samples.nan
           (Some More.pts_brace_for_point) Shape_default
           "1.000000" "n_points: 3" "{" ["2 2"; "4 2"] "}" []
           [(F32.of_int 2, F32.of_int 2); (F32.of_int 4, F32.of_int 2)] 3).
  - vm_compute. reflexivity.
  - vm_compute. reflexivity.
  - vm_compute. reflexivity.
  - repeat (constructor; [vm_compute; reflexivity|]). constructor.
  - vm_compute. reflexivity.
Defined.

(** ** The importers *)

Lemma size_t_sub_positive (a b : nat) :
  Z.of_nat a < 2 ^ 64 -> Z.of_nat b < 2 ^ 64 ->
  ((0 <? size_t_sub a b) = true <-> a <> b).
Proof.
  intros Ha Hb. unfold size_t_sub. rewrite Z.ltb_lt.
  destruct (Z.lt_ge_cases (Z.of_nat a) (Z.of_nat b)) as [Hlt | Hge].
  - replace (Z.of_nat a - Z.of_nat b)
      with (Z.of_nat a - Z.of_nat b + 2 ^ 64 + (-1) * 2 ^ 64) by lia.
    rewrite Z.mod_add by lia. rewrite Z.mod_small by lia. lia.
  - rewrite Z.mod_small by lia. lia.
Qed.

(** X6. A dialect-A import that returns has imported some k of the
    candidates found, and has appended k entries to each of the three
    collections, or 2k with the mirrored augmentation; collections of
    one length stay of one length. *)
Theorem imm_import_counts `{C : Collaborators} (RectCols : nat)
    (indet : float) (directory rectangleFile : string) (out out' : Outputs)
    (opts : ImportParameters) (b : bool) :
  importIMMFaceDatabase RectCols indet directory rectangleFile out opts
    = Ok (b, out') ->
  exists k,
    (k <= List.length (findFilesInDir directory "asf" true))%nat /\
    grown out out' (k * per_candidate opts) (k * per_candidate opts)
                   (k * per_candidate opts) /\
    (aligned out -> aligned out').
Proof.
  intros H.
  destruct (MoreImporterFacts.imm_import_appended _ _ _ _ _ _ _ _ H)
    as (ims & ss & rs & k & A & Hk & Li & Ls & Lr).
  destruct (MoreImporterFacts.appended_lengths _ _ _ _ _ A) as (Ei & Es & Er).
  exists k. split; [exact Hk|]. split.
  - unfold grown, lengths. now rewrite Ei, Es, Er, Li, Ls, Lr.
  - unfold aligned. intros [A1 A2]. lia.
Qed.

Lemma imm_import_counts_witness :
  exists (out' : @Outputs (World.collaborators World.imm_disk)) (k : nat),
    (k <= 1)%nat /\
    grown (World.no_outputs World.imm_disk) out' (k * 2) (k * 2) (k * 2).
Proof.
  eassert (E : importIMMFaceDatabase
                 (C := World.collaborators World.imm_disk)
                 4 Samples.nan "dir" "" (World.no_outputs World.imm_disk)
                 (mk_ImportParameters 100 true) = Ok (_, _))
    by (vm_compute; reflexivity).
  destruct (imm_import_counts _ _ _ _ _ _ _ _ E) as (k & Hk & G & _).
  eexists _, k. split; [exact Hk | exact G].
Defined.

(** X7. A dialect-B import that returns has imported some k of the
    candidates found; without the mirrored augmentation it has appended
    k images, k shapes and k rectangles, with it 2k images, 3k shapes
    and k rectangles. With the augmentation, collections of one length
    keep one length only when nothing was imported. *)
Theorem ibug_import_counts `{C : Collaborators} (RectCols : nat)
    (indet : float) (directory rectangleFile : string) (out out' : Outputs)
    (opts : ImportParameters) (b : bool) :
  importIBugAnnotatedFaceDatabase RectCols indet directory rectangleFile
    out opts = Ok (b, out') ->
  exists k,
    (k <= List.length (findFilesInDir directory "pts" true))%nat /\
    grown out out' (k * per_candidate opts)
      (k * (if generateVerticallyMirrored opts then 3 else 1)) k /\
    (aligned out ->
     (aligned out' <->
      generateVerticallyMirrored opts = false \/ out' = out)).
Proof.
  intros H.
  destruct (MoreImporterFacts.ibug_import_appended _ _ _ _ _ _ _ _ H)
    as (ims & ss & rs & k & A & Hk & Li & Ls & Lr).
  destruct (MoreImporterFacts.appended_lengths _ _ _ _ _ A) as (Ei & Es & Er).
  pose proof (MoreImporterFacts.appended_same _ _ _ _ _ A) as Same.
  exists k. split; [exact Hk|]. split.
  - unfold grown, lengths. rewrite Ei, Es, Er, Li, Ls, Lr.
    now rewrite Nat.mul_1_r.
  - unfold aligned, per_candidate in *. intros [A1 A2].
    destruct (generateVerticallyMirrored opts).
    + split.
      * intros [B1 B2]. right. apply Same. lia.
      * intros [F | ->]; [discriminate | split; assumption].
    + split; [auto | intros _; lia].
Qed.

Lemma ibug_import_counts_witness :
  exists (out' : @Outputs (World.collaborators World.ibug_disk)) (k : nat),
    (k <= 1)%nat /\
    grown (World.no_outputs World.ibug_disk) out' (k * 2) (k * 3) k.
Proof.
  eassert (E : importIBugAnnotatedFaceDatabase
                 (C := World.collaborators World.ibug_disk)
                 4 Samples.nan "dir" "" (World.no_outputs World.ibug_disk)
                 (mk_ImportParameters 100 true) = Ok (_, _))
    by (vm_compute; reflexivity).
  destruct (ibug_import_counts _ _ _ _ _ _ _ _ E) as (k & Hk & G & _).
  eexists _, k. split; [exact Hk | exact G].
Defined.

(** X8. The flag of a dialect-A import that returns: it is true exactly
    when the rectangle count passed and the shape collection is
    non-empty on return. Called with an empty shape collection it is
    true exactly when something was imported; called with a non-empty
    one it only tells that the rectangle count passed. *)
Theorem imm_import_flag `{C : Collaborators} (RectCols : nat)
    (indet : float) (directory rectangleFile : string) (out out' : Outputs)
    (opts : ImportParameters) (b : bool) :
  importIMMFaceDatabase RectCols indet directory rectangleFile out opts
    = Ok (b, out') ->
  let passed :=
    rects_match (findFilesInDir directory "asf" true)
                (importRectangles rectangleFile) in
  (b = true <-> passed = true /\ shapes out' <> []) /\
  (shapes out = [] -> (b = true <-> out' <> out)) /\
  (shapes out <> [] -> (b = true <-> passed = true)).
Proof.
  intros H passed.
  destruct (MoreImporterFacts.imm_import_appended _ _ _ _ _ _ _ _ H)
    as (ims & ss & rs & k & A & Hk & Li & Ls & Lr).
  pose proof (MoreImporterFacts.appended_same _ _ _ _ _ A) as Same.
  destruct (MoreImporterFacts.appended_lengths _ _ _ _ _ A) as (Ei & Es & Er).
  assert (Hnil : forall o : Outputs,
            shapes o <> [] <-> List.length (shapes o) <> 0%nat).
  { intros o. now rewrite length_zero_iff_nil. }
  destruct (MoreImporterFacts.imm_import_returned _ _ _ _ _ _ _ _ H _ eq_refl)
    as [(M & -> & ->) | (M & _ & ->)]; fold passed in M; rewrite M.
  - split; [|split].
    + split; [discriminate | intros [F _]; discriminate].
    + intros _. split; [discriminate | congruence].
    + intros _. split; discriminate.
  - rewrite Nat.ltb_lt. split; [|split].
    + rewrite Hnil. split; [intros; split; [reflexivity | lia] | lia].
    + intros E. apply (f_equal (@List.length _)) in E. cbn in E.
      rewrite Same. lia.
    + intros E. apply Hnil in E. split; [reflexivity | intros _; lia].
Qed.

Lemma imm_import_flag_witness :
  exists (b : bool) (out' : @Outputs (World.collaborators World.barren_disk)),
    importIMMFaceDatabase (C := World.collaborators World.barren_disk)
      4 Samples.nan "dir" "" (World.one_entry World.barren_disk)
      ImportParameters_default = Ok (b, out') /\
    (b = true <->
     rects_match ["a"] [] = true) /\
    out' = World.one_entry World.barren_disk.
Proof.
  eassert (E : importIMMFaceDatabase
                 (C := World.collaborators World.barren_disk)
                 4 Samples.nan "dir" "" (World.one_entry World.barren_disk)
                 ImportParameters_default = Ok (_, _))
    by (vm_compute; reflexivity).
  eexists _, _. split; [exact E|]. split; [|reflexivity].
  apply (imm_import_flag _ _ _ _ _ _ _ _ E). vm_compute. discriminate.
Defined.

(** X9. The flag of a dialect-B import that returns, for collections
    below 2^64 items: it is true exactly when the rectangle count
    passed and the number of shapes on return differs from the number
    of images at entry. Called with as many shapes as images it is true
    exactly when something was imported. *)
Theorem ibug_import_flag `{C : Collaborators} (RectCols : nat)
    (indet : float) (directory rectangleFile : string) (out out' : Outputs)
    (opts : ImportParameters) (b : bool) :
  importIBugAnnotatedFaceDatabase RectCols indet directory rectangleFile
    out opts = Ok (b, out') ->
  let passed :=
    rects_match (findFilesInDir directory "pts" true)
                (importRectangles rectangleFile) in
  (Z.of_nat (List.length (shapes out')) < 2 ^ 64) ->
  (Z.of_nat (List.length (images out)) < 2 ^ 64) ->
  (b = true <->
   passed = true /\
   List.length (shapes out') <> List.length (images out)) /\
  (List.length (images out) = List.length (shapes out) ->
   (b = true <-> out' <> out)).
Proof.
  intros H passed Hs Hi.
  destruct (MoreImporterFacts.ibug_import_appended _ _ _ _ _ _ _ _ H)
    as (ims & ss & rs & k & A & Hk & Li & Ls & Lr).
  pose proof (MoreImporterFacts.appended_same _ _ _ _ _ A) as Same.
  destruct (MoreImporterFacts.appended_lengths _ _ _ _ _ A) as (Ei & Es & Er).
  destruct (MoreImporterFacts.ibug_import_returned _ _ _ _ _ _ _ _ H _ eq_refl)
    as [(M & -> & ->) | (M & _ & ->)]; fold passed in M; rewrite M.
  - split.
    + split; [discriminate | intros [F _]; discriminate].
    + intros _. split; [discriminate | congruence].
  - rewrite (size_t_sub_positive _ _ Hs Hi). split.
    + split; [auto | now intros [_ N]].
    + intros E. rewrite Same. unfold per_candidate in *.
      destruct (generateVerticallyMirrored opts); lia.
Qed.

Lemma ibug_import_flag_witness :
  exists (b : bool) (out' : @Outputs (World.collaborators World.ibug_disk)),
    importIBugAnnotatedFaceDatabase (C := World.collaborators World.ibug_disk)
      4 Samples.nan "dir" "" (World.one_entry World.ibug_disk)
      ImportParameters_default = Ok (b, out') /\
    (b = true <-> out' <> World.one_entry World.ibug_disk).
Proof.
  eassert (E : importIBugAnnotatedFaceDatabase
                 (C := World.collaborators World.ibug_disk)
                 4 Samples.nan "dir" "" (World.one_entry World.ibug_disk)
                 ImportParameters_default = Ok (_, _))
    by (vm_compute; reflexivity).
  eexists _, _. split; [exact E|].
  apply (ibug_import_flag _ _ _ _ _ _ _ _ E).
  - vm_compute. reflexivity.
  - vm_compute. reflexivity.
  - reflexivity.
Defined.

(** X10. Whatever an import returns, and whichever of the three entry
    points was called, the collections on return are the collections at
    entry followed by what was appended: no earlier entry is removed,
    replaced or reordered. *)
Theorem import_keeps_entries `{C : Collaborators} (RectCols : nat)
    (indet : float) (directory rectangleFile : string) (out out' : Outputs)
    (opts : ImportParameters) (b : bool) :
  importDatabase RectCols indet directory rectangleFile out opts
    = Ok (b, out') \/
  importIMMFaceDatabase RectCols indet directory rectangleFile out opts
    = Ok (b, out') \/
  importIBugAnnotatedFaceDatabase RectCols indet directory rectangleFile
    out opts = Ok (b, out') ->
  exists ims ss rs, appended out out' ims ss rs.
Proof.
  assert (Himm : importIMMFaceDatabase RectCols indet directory
                   rectangleFile out opts = Ok (b, out') ->
                 exists ims ss rs, appended out out' ims ss rs).
  { intros H.
    destruct (MoreImporterFacts.imm_import_appended _ _ _ _ _ _ _ _ H)
      as (ims & ss & rs & k & A & _). now exists ims, ss, rs. }
  assert (Hibug : importIBugAnnotatedFaceDatabase RectCols indet directory
                    rectangleFile out opts = Ok (b, out') ->
                  exists ims ss rs, appended out out' ims ss rs).
  { intros H.
    destruct (MoreImporterFacts.ibug_import_appended _ _ _ _ _ _ _ _ H)
      as (ims & ss & rs & k & A & _). now exists ims, ss, rs. }
  intros [H | [H | H]]; [|now apply Himm | now apply Hibug].
  unfold importDatabase in H.
  destruct (Nat.ltb 0 (List.length (findFilesInDir directory "asf" true)));
    [now apply Himm|].
  destruct (Nat.ltb 0 (List.length (findFilesInDir directory "pts" true)));
    [now apply Hibug|].
  injection H as <- <-. exists [], [], [].
  apply MoreImportFacts.appended_nil.
Qed.

Lemma import_keeps_entries_witness :
  exists (out' : @Outputs (World.collaborators World.ibug_disk))
         ims ss rs,
    appended (World.one_entry World.ibug_disk) out' ims ss rs.
Proof.
  eassert (E : importDatabase
                 (C := World.collaborators World.ibug_disk)
                 4 Samples.nan "dir" "" (World.one_entry World.ibug_disk)
                 (mk_ImportParameters 100 true) = Ok (_, _))
    by (vm_compute; reflexivity).
  eexists. exact (import_keeps_entries _ _ _ _ _ _ _ _ (or_introl E)).
Defined.

(** X11. An import returns with a flag, without a fault and without an
    exception, when every rectangle it meets has at most as many columns
    as a Rect, neither annotation parser faults on a candidate of the
    directory, and cv::resize returns for the image of each candidate
    that exceeds the cap. *)
Theorem import_completes `{C : Collaborators} (RectCols : nat)
    (indet : float) (directory rectangleFile : string) (out : Outputs)
    (opts : ImportParameters) :
  rects_fit RectCols (importRectangles rectangleFile) ->
  (forall path, In path (findFilesInDir directory "asf" true) ->
     exists b s, parseAsfFile indet (file_content (path ++ ".asf"))
                   Shape_default = Ok (b, s)) ->
  (forall path, In path (findFilesInDir directory "pts" true) ->
     exists b s, parsePtsFile indet (file_content (path ++ ".pts"))
                   Shape_default = Ok (b, s)) ->
  (forall path,
     In path (findFilesInDir directory "asf" true
              ++ findFilesInDir directory "pts" true) ->
     resize_returns opts (imread (path ++ ".jpg"))) ->
  (exists b out',
     importIMMFaceDatabase RectCols indet directory rectangleFile out opts
       = Ok (b, out')) /\
  (exists b out',
     importIBugAnnotatedFaceDatabase RectCols indet directory rectangleFile
       out opts = Ok (b, out')) /\
  (exists b out',
     importDatabase RectCols indet directory rectangleFile out opts
       = Ok (b, out')).
Proof.
  intros Hf Hasf Hpts Hz.
  assert (Himm : exists b out',
            importIMMFaceDatabase RectCols indet directory rectangleFile
              out opts = Ok (b, out')).
  { unfold importIMMFaceDatabase.
    destruct (rects_match _ _) eqn:M; cbn [negb]; [|now eexists _, _].
    destruct (MoreEntryFacts.import_loop_completes
                (importRectangles rectangleFile)
                (imm_entry RectCols indet opts
                   (importRectangles rectangleFile))
                (findFilesInDir directory "asf" true) 0%nat out)
      as (o & ->).
    - intros path j o Hin Hj.
      apply MoreEntryFacts.imm_entry_completes; try assumption.
      * apply Hz, in_or_app. now left.
      * now apply Hasf.
    - now apply MoreEntryFacts.rects_match_on_file.
    - cbn [bind]. now eexists _, _. }
  assert (Hibug : exists b out',
            importIBugAnnotatedFaceDatabase RectCols indet directory
              rectangleFile out opts = Ok (b, out')).
  { unfold importIBugAnnotatedFaceDatabase.
    destruct (rects_match _ _) eqn:M; cbn [negb]; [|now eexists _, _].
    destruct (MoreEntryFacts.import_loop_completes
                (importRectangles rectangleFile)
                (ibug_entry RectCols indet opts
                   (importRectangles rectangleFile))
                (findFilesInDir directory "pts" true) 0%nat out)
      as (o & ->).
    - intros path j o Hin Hj.
      apply MoreEntryFacts.ibug_entry_completes; try assumption.
      * apply Hz, in_or_app. now right.
      * now apply Hpts.
    - now apply MoreEntryFacts.rects_match_on_file.
    - cbn [bind]. now eexists _, _. }
  split; [exact Himm|]. split; [exact Hibug|].
  unfold importDatabase.
  destruct (Nat.ltb 0 _); [exact Himm|].
  destruct (Nat.ltb 0 _); [exact Hibug|]. now eexists _, _.
Qed.

Lemma import_completes_witness :
  exists (b : bool) (out' : @Outputs (World.collaborators World.imm_disk)),
    importDatabase (C := World.collaborators World.imm_disk)
      4 Samples.nan "dir" "" (World.no_outputs World.imm_disk)
      (mk_ImportParameters 5 true) = Ok (b, out').
Proof.
  refine (proj2 (proj2 (import_completes
                          (C := World.collaborators World.imm_disk)
                          4 Samples.nan "dir" ""
                          (World.no_outputs World.imm_disk)
                          (mk_ImportParameters 5 true) _ _ _ _))).
  - split; [intros [|p s]; cbn; lia | constructor].
  - intros path [<- | []]. eexists _, _. vm_compute. reflexivity.
  - intros path [].
  - intros path [<- | []] _. eexists. vm_compute. reflexivity.
Defined.

(** X12. The loop body of the dialect-A import, for a candidate that
    yields an image, a shape and a rectangle of at most RectCols
    columns: it appends the image, the shape and the rectangle, and with
    the mirrored augmentation the flipped image, the mirrored shape and
    the mirrored rectangle after them, each to its own collection. A
    candidate that is passed over leaves the collections as they were. *)
Theorem imm_entry_stores `{C : Collaborators} (RectCols : nat)
    (indet : float) (opts : ImportParameters) (loadedRects : list Rect)
    (path : string) (i : nat) (out : Outputs) :
  (imm_candidate indet opts loadedRects path i = Ok None ->
   imm_entry RectCols indet opts loadedRects path i out = Ok out) /\
  (forall img s r,
     imm_candidate indet opts loadedRects path i = Ok (Some (img, s, r)) ->
     (cols r <= RectCols)%nat ->
     let W := mat_cols img in
     imm_entry RectCols indet opts loadedRects path i out =
     Ok (if generateVerticallyMirrored opts
         then mk_Outputs
                (images out ++ [toDest img; toDest (cv_flip img)])
                (shapes out ++ [s; map (mirror_point W) s])
                (rects out ++
                   [r; map (mirror_point W) r
                       ++ skipn (cols r) (Rect_default RectCols indet)])
         else mk_Outputs (images out ++ [toDest img]) (shapes out ++ [s])
                         (rects out ++ [r]))).
Proof.
  split.
  - apply MoreEntryFacts.imm_entry_passed.
  - intros img s r Hc Hr W.
    rewrite (MoreEntryFacts.imm_entry_stored _ _ _ _ _ _ _ _ _ _ Hc Hr).
    unfold stored. now destruct (generateVerticallyMirrored opts).
Qed.

Lemma imm_entry_stores_witness :
  exists out' : @Outputs (World.collaborators World.imm_disk),
    imm_entry (C := World.collaborators World.imm_disk)
      4 Samples.nan (mk_ImportParameters 100 true) [] "a" 0
      (World.one_entry World.imm_disk) = Ok out' /\
    lengths out' = (3, 3, 3)%nat.
Proof.
  eexists. split.
  - eapply (proj2 (imm_entry_stores
                     (C := World.collaborators World.imm_disk)
                     4 Samples.nan (mk_ImportParameters 100 true) [] "a" 0
                     (World.one_entry World.imm_disk))).
    + vm_compute. reflexivity.
    + vm_compute. lia.
  - reflexivity.
Defined.

(** X13. The loop body of the dialect-B import, for a candidate that
    yields an image, a shape and a rectangle of at most RectCols
    columns: it appends the image, the shape and the rectangle; with the
    mirrored augmentation it appends the flipped image, and appends both
    the mirrored shape and the mirrored rectangle to the shapes, so the
    rectangles gain one item while the shapes gain three. *)
Theorem ibug_entry_stores `{C : Collaborators} (RectCols : nat)
    (indet : float) (opts : ImportParameters) (loadedRects : list Rect)
    (path : string) (i : nat) (out : Outputs) :
  (ibug_candidate indet opts loadedRects path i = Ok None ->
   ibug_entry RectCols indet opts loadedRects path i out = Ok out) /\
  (forall img s r,
     ibug_candidate indet opts loadedRects path i = Ok (Some (img, s, r)) ->
     (cols r <= RectCols)%nat ->
     let W := mat_cols img in
     ibug_entry RectCols indet opts loadedRects path i out =
     Ok (if generateVerticallyMirrored opts
         then mk_Outputs
                (images out ++ [toDest img; toDest (cv_flip img)])
                (shapes out ++
                   [s; map (mirror_point W) s;
                    map (mirror_point W) r
                      ++ skipn (cols r) (Rect_default RectCols indet)])
                (rects out ++ [r])
         else mk_Outputs (images out ++ [toDest img]) (shapes out ++ [s])
                         (rects out ++ [r]))).
Proof.
  split.
  - apply MoreEntryFacts.ibug_entry_passed.
  - intros img s r Hc Hr W.
    rewrite (MoreEntryFacts.ibug_entry_stored _ _ _ _ _ _ _ _ _ _ Hc Hr).
    unfold stored. now destruct (generateVerticallyMirrored opts).
Qed.

Lemma ibug_entry_stores_witness :
  exists out' : @Outputs (World.collaborators World.ibug_disk),
    ibug_entry (C := World.collaborators World.ibug_disk)
      4 Samples.nan (mk_ImportParameters 100 true) [] "a" 0
      (World.one_entry World.ibug_disk) = Ok out' /\
    lengths out' = (3, 4, 2)%nat.
Proof.
  eexists. split.
  - eapply (proj2 (ibug_entry_stores
                     (C := World.collaborators World.ibug_disk)
                     4 Samples.nan (mk_ImportParameters 100 true) [] "a" 0
                     (World.one_entry World.ibug_disk))).
    + vm_compute. reflexivity.
    + vm_compute. lia.
  - reflexivity.
Defined.

(** X14. When no rectangle was loaded, a candidate whose annotation
    does not parse or whose image is empty has no influence on an
    import: the loop gives the same result with that candidate removed
    from the paths, in either dialect. *)
Theorem skipped_candidate_without_effect `{C : Collaborators}
    (RectCols : nat) (indet : float) (opts : ImportParameters)
    (pre post : list string) (path : string) (i : nat) (out : Outputs) :
  (forall b s,
     parseAsfFile indet (file_content (path ++ ".asf")) Shape_default
       = Ok (b, s) ->
     (b && negb (mat_empty (imread (path ++ ".jpg"))))%bool = false ->
     import_loop (imm_entry RectCols indet opts [])
       (pre ++ path :: post) i out =
     import_loop (imm_entry RectCols indet opts []) (pre ++ post) i out) /\
  (forall b s,
     parsePtsFile indet (file_content (path ++ ".pts")) Shape_default
       = Ok (b, s) ->
     (b && negb (mat_empty (imread (path ++ ".jpg"))))%bool = false ->
     import_loop (ibug_entry RectCols indet opts [])
       (pre ++ path :: post) i out =
     import_loop (ibug_entry RectCols indet opts []) (pre ++ post) i out).
Proof.
  split; intros b s Hp Hc; rewrite !MoreImportFacts.import_loop_app;
    destruct (import_loop _ pre i out) as [o|e]; cbn [bind];
    try reflexivity; cbn [import_loop].
  - rewrite MoreEntryFacts.imm_entry_passed.
    + cbn [bind]. apply MoreImportFacts.import_loop_index.
      intros p j k o'. now apply MoreImportFacts.imm_entry_index.
    + unfold imm_candidate. rewrite Hp. cbn [bind]. now rewrite Hc.
  - rewrite MoreEntryFacts.ibug_entry_passed.
    + cbn [bind]. apply MoreImportFacts.import_loop_index.
      intros p j k o'. now apply MoreImportFacts.ibug_entry_index.
    + unfold ibug_candidate. rewrite Hp. cbn [bind]. now rewrite Hc.
Qed.

Lemma skipped_candidate_without_effect_witness :
  import_loop (C := World.collaborators World.imm_disk)
    (imm_entry 4 Samples.nan ImportParameters_default [])
    ["a"; "missing"; "a"] 0 (World.no_outputs World.imm_disk) =
  import_loop (C := World.collaborators World.imm_disk)
    (imm_entry 4 Samples.nan ImportParameters_default [])
    ["a"; "a"] 0 (World.no_outputs World.imm_disk).
Proof.
  eapply (proj1 (skipped_candidate_without_effect
                   (C := World.collaborators World.imm_disk)
                   4 Samples.nan ImportParameters_default
                   ["a"] ["a"] "missing" 0
                   (World.no_outputs World.imm_disk))).
  - vm_compute. reflexivity.
  - vm_compute. reflexivity.
Defined.



(** X16. On the pixel grid the mirror transform is exact: for an image
    of width W with W - 1 < 2^24, a shape whose x coordinates are the
    integers x_i with 0 <= x_i <= W - 1 is returned with x coordinates
    the integers W - 1 - x_i, and its y coordinates as they were. *)
Theorem mirror_pixel_grid `{C : Collaborators} (indet : float) (img : Mat)
    (xs : list (Z * float)) (r : Rect) (dstShape : Shape) (dstRect : Rect) :
  let W := mat_cols img in
  W - 1 < 2 ^ 24 ->
  Forall (fun c => 0 <= fst c <= W - 1) xs ->
  (cols r <= cols dstRect)%nat ->
  exists dR,
    mirrorImageShapeAndRectVertically indet img
      (map (fun c => (F32.of_int (fst c), snd c)) xs) r dstShape dstRect =
    Ok (cv_flip img,
        map (fun c => (F32.of_int (W - 1 - fst c), snd c)) xs, dR).
Proof.
  intros W HW Hxs Hr. eexists.
  rewrite MirrorFacts.mirror_result by assumption. fold W.
  rewrite map_map. do 2 f_equal. f_equal.
  apply map_ext_in. intros c Hc. rewrite Forall_forall in Hxs.
  unfold mirror_point. cbn [fst snd].
  now rewrite F32Facts.sub_of_int by (auto; lia).
Qed.

Lemma mirror_pixel_grid_witness :
  exists dR,
    mirrorImageShapeAndRectVertically
      (C := World.collaborators World.ibug_disk)
      Samples.nan Samples.small_raster
      (map (fun c => (F32.of_int (fst c), snd c))
           [(1, F32.of_int 1); (3, F32.of_int 1); (2, F32.of_int 3)])
      World.unit_rect Shape_default (Rect_default 4 Samples.nan) =
    Ok (World.flip_raster Samples.small_raster,
        map (fun c => (F32.of_int (8 - 1 - fst c), snd c))
            [(1, F32.of_int 1); (3, F32.of_int 1); (2, F32.of_int 3)], dR).
Proof.
  apply (mirror_pixel_grid (C := World.collaborators World.ibug_disk)).
  - vm_compute. reflexivity.
  - repeat constructor; cbn; lia.
  - vm_compute. lia.
Defined.

(** X17. The dialect-A loop body stores landmarks in pixels: for an
    annotation that parses to the relative coordinates (x_i, y_i) and a
    non-empty image of width W and height H within the cap, it appends
    the image, the shape of the points (x_i * float(W), y_i * float(H))
    and the rectangle chosen for that shape, and nothing else when the
    mirrored augmentation is off. *)
Theorem imm_entry_pixels `{C : Collaborators} (RectCols : nat)
    (indet : float) (opts : ImportParameters) (loadedRects : list Rect)
    (path : string) (i : nat) (out : Outputs) (s0 : Shape) (r : Rect) :
  let img := imread (path ++ ".jpg") in
  let pix := map (fun p : point =>
                    (F32.mul (fst p) (F32.of_int (mat_cols img)),
                     F32.mul (snd p) (F32.of_int (mat_rows img)))) s0 in
  parseAsfFile indet (file_content (path ++ ".asf")) Shape_default
    = Ok (true, s0) ->
  mat_empty img = false ->
  pick_rect loadedRects pix i = Ok r ->
  Z.max (mat_cols img) (mat_rows img) <= maxImageSideLength opts ->
  generateVerticallyMirrored opts = false ->
  imm_entry RectCols indet opts loadedRects path i out =
  Ok (mk_Outputs (images out ++ [toDest img]) (shapes out ++ [pix])
                 (rects out ++ [r])).
Proof.
  intros img pix Hp He Hr Hcap Hm.
  rewrite MoreImportFacts.imm_entry_candidate. unfold imm_candidate.
  rewrite Hp. cbn [bind]. fold img. rewrite He. cbn [andb negb].
  assert (E : scale_row1 (scale_row0 s0 (F32.of_int (mat_cols img)))
                (F32.of_int (mat_rows img)) = pix).
  { unfold scale_row0, scale_row1, pix. now rewrite map_map. }
  rewrite E, Hr. cbn [bind].
  rewrite MoreImportFacts.scale_if_needed_result.
  apply Z.ltb_ge in Hcap. rewrite Hcap. cbn [bind]. now rewrite Hm.
Qed.

Lemma imm_entry_pixels_witness :
  imm_entry (C := World.collaborators World.imm_disk)
    4 Samples.nan ImportParameters_default [] "a" 0
    (World.no_outputs World.imm_disk) =
  Ok (mk_Outputs (I := World.Raster)
        [Samples.small_raster]
        [[(F32.of_int 2, F32.of_int 3); (F32.of_int 6, F32.of_int 3)]]
        [World.tight_bounds
           [(F32.of_int 2, F32.of_int 3); (F32.of_int 6, F32.of_int 3)]]).
Proof.
  etransitivity.
  - eapply (imm_entry_pixels (C := World.collaborators World.imm_disk)
              4 Samples.nan ImportParameters_default [] "a" 0
              (World.no_outputs World.imm_disk)).
    + vm_compute. reflexivity.
    + reflexivity.
    + reflexivity.
    + vm_compute. discriminate.
    + reflexivity.
  - vm_compute. reflexivity.
Defined.
